(** * cellarsense-store: the sensor store over an ordered key-value engine

    A shallow embedding of [sensorstore] (src/main.go, second part): the
    write path [StoreValues], the query path [ReadLastValue] / [ReadValues],
    [convertToValues] and the writer routine [storeValuesRoutine], together
    with the parts of Go's [time] package and of the bbolt engine that the
    store calls. *)

From Stdlib Require Import ZArith Lia List Bool Ascii String Sorted.
From stdpp Require Import base option gmap strings.

Local Open Scope Z_scope.

(** ** Bytes and decimal digits *)

Module bytes.

(** Go: [isDigit(s, i)], on one byte. *)
Definition is_digit (c : ascii) : bool :=
  let n := N_of_ascii c in (48 <=? n)%N && (n <=? 57)%N.

(** Go: [int(c - '0')]. *)
Definition digit_val (c : ascii) : Z := Z.of_N (N_of_ascii c) - 48.

(** Go: ['0' + byte(u)], for a decimal digit [u]. *)
Definition digit_char (u : Z) : ascii := ascii_of_N (Z.to_N (48 + u)).

(** Two and four decimal digits, zero padded: the fast cases of
    [appendInt] in [time/format.go]. *)
Definition pad2 (u : Z) (rest : string) : string :=
  String (digit_char (u / 10)) (String (digit_char (u mod 10)) rest).

Definition pad4 (u : Z) (rest : string) : string :=
  String (digit_char (u / 1000))
    (String (digit_char (u / 100 mod 10))
      (String (digit_char (u / 10 mod 10))
        (String (digit_char (u mod 10)) rest))).

(** The decimal digits of a non-negative number, most significant first
    ([fuel] bounds the number of digits). *)
Fixpoint digits_rev (fuel : nat) (u : Z) : list ascii :=
  match fuel with
  | O => []
  | S fuel' =>
      if u <? 10 then [digit_char u]
      else digit_char (u mod 10) :: digits_rev fuel' (u / 10)
  end.

Definition decimal (u : Z) : list ascii :=
  rev (digits_rev (S (Z.to_nat (Z.log2 u))) u).

Fixpoint of_chars (l : list ascii) (rest : string) : string :=
  match l with
  | [] => rest
  | c :: l' => String c (of_chars l' rest)
  end.

(** Go: [appendInt(b, x, width)]: sign, then the digits padded with zeros
    to [width]. *)
Definition appendInt (x : Z) (width : nat) (rest : string) : string :=
  let u := Z.abs x in
  let body :=
    match width with
    | 2%nat => if u <? 100 then pad2 u rest
               else of_chars (decimal u) rest
    | 4%nat => if u <? 10000 then pad4 u rest
               else of_chars (decimal u) rest
    | _ => let ds := decimal u in
           of_chars (repeat "0"%char (width - length ds) ++ ds) rest
    end in
  if x <? 0 then String "-"%char body else body.

End bytes.

(** ** Go's [time] package, as far as the store uses it

    [time.Time] is an instant with nanosecond precision and a location; the
    store calls [Now], [Add], [Truncate], [After], [Format] and [Parse], the
    last two always with the layout [time.RFC3339]
    ("2006-01-02T15:04:05Z07:00"). *)

Module time.
Import bytes.

(** [time.Duration]: a count of nanoseconds ([int64] in Go). *)
Definition Duration := Z.
Definition Nanosecond : Duration := 1.
Definition Second : Duration := 1000000000.
Definition Minute : Duration := 60 * Second.
Definition Hour : Duration := 60 * Minute.

(** A location maps an instant (Unix seconds) to the offset east of UTC, in
    seconds, in force at that instant. *)
Definition Location := Z -> Z.
Definition UTC : Location := fun _ => 0.
Definition FixedZone (offset : Z) : Location := fun _ => offset.

(** An instant: nanoseconds since January 1, year 1, 00:00:00 UTC (the zero
    time of the package), and the location it is presented in. *)
Record Time := mkTime { abs : Z; loc : Location }.

Definition secondsPerDay : Z := 86400.
Definition unixToInternal : Z := 62135596800.

(** Go: [t.sec()], seconds since the zero time. *)
Definition sec (t : Time) : Z := abs t / Second.
(** Go: [t.unixSec()]. *)
Definition unixSec (t : Time) : Z := sec t - unixToInternal.
(** The offset of [t]'s location at [t]. *)
Definition offset (t : Time) : Z := loc t (unixSec t).

Definition Add (t : Time) (d : Duration) : Time := mkTime (abs t + d) (loc t).

(** Go: [t.Truncate(d)]: rounds down to a multiple of [d] since the zero
    time; for [d <= 0] the time is returned unchanged. *)
Definition Truncate (t : Time) (d : Duration) : Time :=
  if d <=? 0 then t else mkTime (abs t - abs t mod d) (loc t).

Definition After (t u : Time) : bool := abs u <? abs t.
Definition Before (t u : Time) : bool := abs t <? abs u.
Definition Equal (t u : Time) : bool := abs t =? abs u.

(** *** The proleptic Gregorian calendar

    Days are counted from January 1, year 1. A 400-year era has 146097 days
    and starts on March 1. *)

Definition daysPerEra : Z := 146097.

Definition civil_of_doe (doe : Z) : Z * Z * Z :=
  let yoe := (doe - doe / 1460 + doe / 36524 - doe / 146096) / 365 in
  let doy := doe - (365 * yoe + yoe / 4 - yoe / 100) in
  let mp := (5 * doy + 2) / 153 in
  let d := doy - (153 * mp + 2) / 5 + 1 in
  let m := if mp <? 10 then mp + 3 else mp - 9 in
  (yoe + (if m <=? 2 then 1 else 0), m, d).

(** Year, month and day of the [days]-th day. *)
Definition civil_from_days (days : Z) : Z * Z * Z :=
  let z := days + 306 in
  let '(y, m, d) := civil_of_doe (z mod daysPerEra) in
  (y + 400 * (z / daysPerEra), m, d).

(** The number of the day [year]-[month]-[day]. *)
Definition days_from_civil (year month day : Z) : Z :=
  let y := if month <=? 2 then year - 1 else year in
  let yoe := y mod 400 in
  let mp := if 2 <? month then month - 3 else month + 9 in
  let doy := (153 * mp + 2) / 5 + day - 1 in
  (y / 400) * daysPerEra + (yoe * 365 + yoe / 4 - yoe / 100 + doy) - 306.

Definition isLeap (year : Z) : bool :=
  (year mod 4 =? 0) && (negb (year mod 100 =? 0) || (year mod 400 =? 0)).

(** Go: [daysIn(m, year)]. *)
Definition daysIn (month year : Z) : Z :=
  if (month =? 2) && isLeap year then 29
  else if month =? 2 then 28
  else if (month =? 4) || (month =? 6) || (month =? 9) || (month =? 11) then 30
  else 31.

(** Go: [time.Date(year, month, day, hour, min, sec, nsec, UTC)], on fields
    that are in range. *)
Definition Date (year month day hour min sec nsec : Z) (l : Location) : Time :=
  mkTime (((days_from_civil year month day * secondsPerDay
            + hour * 3600 + min * 60 + sec) * Second) + nsec) l.

(** *** [t.Format(time.RFC3339)] *)

Definition formatZone (offset : Z) (rest : string) : string :=
  if offset =? 0 then String "Z" rest
  else
    let zone := Z.quot offset 60 in
    let sign := if zone <? 0 then "-"%char else "+"%char in
    let zone := Z.abs zone in
    String sign (appendInt (zone / 60) 2 (String ":" (appendInt (zone mod 60) 2 rest))).

(** The text of the local time [a] (seconds since the zero time, offset
    added) under the offset [offset]. *)
Definition formatLocal (a offset : Z) : string :=
  let '(year, month, day) := civil_from_days (a / secondsPerDay) in
  let s := a mod secondsPerDay in
  appendInt year 4 (String "-" (appendInt month 2 (String "-" (appendInt day 2
    (String "T" (appendInt (s / 3600) 2 (String ":" (appendInt (s / 60 mod 60) 2
      (String ":" (appendInt (s mod 60) 2 (formatZone offset ""))))))))))).

Definition Format (t : Time) : string :=
  formatLocal (sec t + offset t) (offset t).

(** *** Notions used to state facts about [Format] and [Parse] *)

(** The first second of year 10000, counted from the zero time: a local
    time in [0, maxSeconds) lies in the years 1 to 9999, which [Format]
    writes with four digits. *)
Definition maxSeconds : Z := 315537897600.

Definition in_years (a : Z) : Prop := 0 <= a < maxSeconds.

(** An offset that [Format] writes in full and [Parse] accepts: whole
    minutes, less than a day. *)
Definition zone_ok (offset : Z) : Prop :=
  offset mod 60 = 0 /\ - secondsPerDay < offset < secondsPerDay.

(** The location [Parse] gives to a text with the offset [off] that
    denotes the instant [u] (Unix seconds): UTC for [Z], the local zone
    when it has that offset at that instant, a fixed zone otherwise. *)
Definition parsedLoc (Local : Location) (off u : Z) : Location :=
  if off =? 0 then UTC
  else if Local u =? off then Local else FixedZone off.

(** The order of two instants. *)
Definition earlier (t u : Time) : Prop := abs t < abs u.

(** A date of the calendar. *)
Definition valid_date (y m d : Z) : Prop :=
  1 <= m <= 12 /\ 1 <= d <= daysIn m y.

(** The order of dates. *)
Definition civil_lt (a b : Z * Z * Z) : Prop :=
  let '(y1, m1, d1) := a in
  let '(y2, m2, d2) := b in
  y1 < y2 \/ y1 = y2 /\ (m1 < m2 \/ m1 = m2 /\ d1 < d2).

(** The number of March 1 of year [y], up to a constant. *)
Definition marchFirst (y : Z) : Z :=
  (y / 400) * daysPerEra + (y mod 400 * 365 + y mod 400 / 4 - y mod 400 / 100).

(** The day of the year that starts on March 1. *)
Definition dayOfYear (month day : Z) : Z :=
  (153 * (if 2 <? month then month - 3 else month + 9) + 2) / 5 + day - 1.

(** The check, for one day of a year that starts on March 1, that
    [civil_of_doe] puts it in a month and on a day of that month. *)
Definition month_ok (doy : Z) : bool :=
  let mp := (5 * doy + 2) / 153 in
  let d := doy - (153 * mp + 2) / 5 + 1 in
  (0 <=? mp) && (mp <=? 11) && (1 <=? d)
  && (d <=? (if mp =? 11 then (if doy =? 365 then 29 else 28)
             else if (mp =? 1) || (mp =? 3) || (mp =? 6) || (mp =? 8) then 30
             else 31)).

Fixpoint all_from (n : nat) (z : Z) (p : Z -> bool) : bool :=
  match n with
  | O => true
  | S n' => p z && all_from n' (z + 1) p
  end.

(** *** [time.Parse(time.RFC3339, value)]

    The layout is consumed chunk by chunk as [parse] in [time/format.go]
    does: a four-digit year, fixed two-digit month, day, minute and second,
    an hour of one or two digits, an optional fraction of a second, and the
    zone, either [Z] or a signed [hh:mm]. *)

(** Go: [getnum(s, fixed)]. *)
Definition getnum (s : string) (fixed : bool) : option (Z * string) :=
  match s with
  | String c0 s1 =>
      if is_digit c0 then
        match s1 with
        | String c1 s2 =>
            if is_digit c1 then Some (digit_val c0 * 10 + digit_val c1, s2)
            else if fixed then None else Some (digit_val c0, s1)
        | EmptyString => if fixed then None else Some (digit_val c0, s1)
        end
      else None
  | EmptyString => None
  end.

(** Go: [skip(value, prefix)] for a one-byte prefix that is not a space. *)
Definition skip (prefix : ascii) (value : string) : option string :=
  match value with
  | String c rest => if Ascii.eqb c prefix then Some rest else None
  | EmptyString => None
  end.

(** The chunk [stdLongYear]: four bytes, all digits. *)
Definition parseYear (value : string) : option (Z * string) :=
  match value with
  | String a (String b (String c (String d rest))) =>
      if is_digit a && is_digit b && is_digit c && is_digit d
      then Some (((digit_val a * 10 + digit_val b) * 10 + digit_val c) * 10
                 + digit_val d, rest)
      else None
  | _ => None
  end.

Definition commaOrPeriod (c : ascii) : bool :=
  Ascii.eqb c "." || Ascii.eqb c ",".

(** The digits at the head of [s], and what follows them. *)
Fixpoint leadingDigits (s : string) : list ascii * string :=
  match s with
  | String c rest =>
      if is_digit c
      then let '(ds, rest') := leadingDigits rest in (c :: ds, rest')
      else ([], s)
  | EmptyString => ([], s)
  end.

(** Go: [parseNanoseconds]: at most nine digits count, scaled to
    nanoseconds. *)
Definition parseNanoseconds (ds : list ascii) : Z :=
  let ds9 := firstn 9 ds in
  fold_left (fun acc c => acc * 10 + digit_val c) ds9 0
  * 10 ^ Z.of_nat (9 - length ds9).

(** A fraction of a second after the seconds field, which [Parse] accepts
    although the layout has none. *)
Definition parseFraction (value : string) : Z * string :=
  match value with
  | String c (String d rest) =>
      if commaOrPeriod c && is_digit d
      then let '(ds, rest') := leadingDigits (String d rest) in
           (parseNanoseconds ds, rest')
      else (0, value)
  | _ => (0, value)
  end.

(** The chunk [stdISO8601ColonTZ]: [None] stands for [Z]. *)
Definition parseZone (value : string) : option (option Z * string) :=
  match value with
  | String "Z" rest => Some (None, rest)
  | String sign (String h1 (String h2 (String colon (String m1 (String m2 rest))))) =>
      if negb (Ascii.eqb colon ":") then None
      else
        match getnum (String h1 (String h2 "")) true,
              getnum (String m1 (String m2 "")) true with
        | Some (hr, _), Some (mm, _) =>
            if (24 <? hr) || (60 <? mm) then None
            else
              let zoneOffset := (hr * 60 + mm) * 60 in
              if Ascii.eqb sign "+" then Some (Some zoneOffset, rest)
              else if Ascii.eqb sign "-" then Some (Some (- zoneOffset), rest)
              else None
        | _, _ => None
        end
  | _ => None
  end.

Definition Parse (Local : Location) (value : string) : option Time :=
  match parseYear value with None => None | Some (year, value) =>
  match skip "-" value with None => None | Some value =>
  match getnum value true with None => None | Some (month, value) =>
  if (month <=? 0) || (12 <? month) then None else
  match skip "-" value with None => None | Some value =>
  match getnum value true with None => None | Some (day, value) =>
  match skip "T" value with None => None | Some value =>
  match getnum value false with None => None | Some (hour, value) =>
  if (hour <? 0) || (24 <=? hour) then None else
  match skip ":" value with None => None | Some value =>
  match getnum value true with None => None | Some (min, value) =>
  if (min <? 0) || (60 <=? min) then None else
  match skip ":" value with None => None | Some value =>
  match getnum value true with None => None | Some (sec, value) =>
  if (sec <? 0) || (60 <=? sec) then None else
  let '(nsec, value) := parseFraction value in
  match parseZone value with None => None | Some (z, value) =>
  match value with String _ _ => None | EmptyString =>
  if (day <? 1) || (daysIn month year <? day) then None else
  match z with
  | None => Some (Date year month day hour min sec nsec UTC)
  | Some zoneOffset =>
      let t := Add (Date year month day hour min sec nsec UTC)
                   (- zoneOffset * Second) in
      if Local (unixSec t) =? zoneOffset
      then Some (mkTime (abs t) Local)
      else Some (mkTime (abs t) (FixedZone zoneOffset))
  end end end end end end end end end end end end end end.

End time.

(** ** Outcomes of a Go call: it returns, or it panics *)

Inductive exec (A : Type) : Type :=
| Panics
| Returns (a : A).
Arguments Panics {A}.
Arguments Returns {A} a.

(** ** The bbolt engine, as far as the store uses it

    A bucket holds byte-string keys in [bytes.Compare] order, each key once.
    Keys and values are modelled as strings of bytes; a nil slice and an
    empty one are the same string, and the store never tells them apart
    (it takes [len(k)], [string(k)] and hands [v] to the decoder). *)

Module bolt.

Inductive error :=
| ErrKeyRequired
| ErrKeyTooLarge
| ErrValueTooLarge
| ErrBucketNameRequired
| ErrCommit.

Abbreviation Bucket := (list (string * string)).
(** The nested buckets of a bucket, by name. *)
Abbreviation Buckets := (gmap string Bucket).
(** The database: its top-level buckets. *)
Abbreviation DB := (gmap string Buckets).

Definition MaxKeySize : Z := 32768.
Definition MaxValueSize : Z := 2147483646.

(** The B+tree insertion of [Bucket.Put]: the pair replaces the one under
    an equal key, or goes before the first greater key. *)
Fixpoint insert (b : Bucket) (key value : string) : Bucket :=
  match b with
  | [] => [(key, value)]
  | (k, v) :: rest =>
      match String.compare key k with
      | Lt => (key, value) :: b
      | Eq => (key, value) :: rest
      | Gt => (k, v) :: insert rest key value
      end
  end.

(** [Bucket.Put(key, value)] on a writable bucket. *)
Definition Put (b : Bucket) (key value : string) : Bucket + error :=
  if (String.length key =? 0)%nat then inr ErrKeyRequired
  else if MaxKeySize <? Z.of_nat (String.length key) then inr ErrKeyTooLarge
  else if MaxValueSize <? Z.of_nat (String.length value) then inr ErrValueTooLarge
  else inl (insert b key value).

(** The order of a bucket: keys ascend strictly. *)
Definition key_lt (e1 e2 : string * string) : Prop :=
  String.compare (fst e1) (fst e2) = Lt.

Definition ordered (b : Bucket) : Prop := StronglySorted key_lt b.

(** No key of [b] is above [key] in byte order. *)
Definition no_key_above (b : Bucket) (key : string) : Prop :=
  Forall (fun e => String.leb (fst e) key = true) b.

(** The pairs of [b] under [key]. *)
Definition entries_at (b : Bucket) (key : string) : Bucket :=
  List.filter (fun e => String.eqb (fst e) key) b.

(** A cursor is modelled by the pairs at and after its position. *)
Abbreviation Cursor := (list (string * string)).

(** What a cursor move returns: the pair under the cursor, or a nil key and
    a nil value when there is none. *)
Definition item (c : Cursor) : string * string :=
  match c with
  | e :: _ => e
  | [] => (EmptyString, EmptyString)
  end.

(** [Cursor.Last()]: the position of the last pair. *)
Fixpoint Last (b : Bucket) : Cursor :=
  match b with
  | [] => []
  | [e] => [e]
  | _ :: rest => Last rest
  end.

(** [Cursor.Seek(seek)]: the position of the first key not below [seek]. *)
Fixpoint Seek (b : Bucket) (seek : string) : Cursor :=
  match b with
  | [] => []
  | (k, v) :: rest =>
      if String.ltb k seek then Seek rest seek else b
  end.

(** [Cursor.Next()]. *)
Definition Next (c : Cursor) : Cursor := tl c.

(** [Bucket.CreateBucketIfNotExists(name)] on a bucket that holds nested
    buckets only. *)
Definition CreateBucketIfNotExists {V} (empty : V) (m : gmap string V)
    (name : string) : gmap string V + error :=
  if (String.length name =? 0)%nat then inr ErrBucketNameRequired
  else match m !! name with
       | Some _ => inl m
       | None => inl (<[name := empty]> m)
       end.

(** [DB.Update(fn)] on an open database: [fn] runs on the transaction's
    view; its error rolls the transaction back and is returned; otherwise
    the commit makes the changes durable, or fails as a whole
    ([commit_ok = false]: the engine cannot write). A panic in [fn] is not
    recovered. *)
Definition Update {E} (commit_failed : E) (commit_ok : bool) (db : DB)
    (fn : DB -> exec (DB * option E)) : exec (DB * option E) :=
  match fn db with
  | Panics => Panics
  | Returns (_, Some e) => Returns (db, Some e)
  | Returns (tx, None) =>
      if commit_ok then Returns (tx, None)
      else Returns (db, Some commit_failed)
  end.

(** [DB.View(fn)] on an open database. *)
Definition View {A} (db : DB) (fn : DB -> exec A) : exec A := fn db.

End bolt.

(** ** [float32]

    A [float32] is modelled by its IEEE-754 binary32 bit pattern
    ([math.Float32bits]): sign bit 31, exponent bits 30..23, fraction bits
    22..0. *)

Module float32.

Definition t := Z.

Definition sign (x : t) : bool := Z.testbit x 31.
Definition exponent (x : t) : Z := Z.land (Z.shiftr x 23) 255.
Definition fraction (x : t) : Z := Z.land x 8388607.

Definition IsNaN (x : t) : bool := (exponent x =? 255) && negb (fraction x =? 0).
Definition IsInf (x : t) : bool := (exponent x =? 255) && (fraction x =? 0).
Definition is_zero (x : t) : bool := (exponent x =? 0) && (fraction x =? 0).

(** Go's [==] on two floats: a NaN equals nothing, the two zeros are
    equal, any other value equals itself only. *)
Definition eqb (x y : t) : bool :=
  negb (IsNaN x) && negb (IsNaN y)
  && ((is_zero x && is_zero y) || (Z.land x 4294967295 =? Z.land y 4294967295)).

End float32.

(** ** Package [sensorstore] *)

Module sensorstore.
Import time.
Export bolt.

Definition sensorBucket : string := "sensors".

(** Errors that the store returns: it hands on what [time.Parse],
    [encoding/json] and the engine report, and wraps the engine's error
    when it creates a bucket. *)
Inductive error :=
| ParseError (value : string)
| MarshalError
| UnmarshalError (data : string)
| BoltError (e : bolt.error)
| CreateBucketError (name : string) (e : bolt.error).

Record Store := mkStore { resolution : Duration; rootBucket : string }.

Record SensorValues := mkSensorValues {
  Temperature : float32.t;
  Humidity : float32.t
}.

Record TimedSensorValues := mkTimedSensorValues {
  Timestamp : Time;
  Values : SensorValues
}.


(** [New(db, resolution)]: creates the root bucket when it is missing. *)
Definition New (commit_ok : bool) (db : DB) (resolution : Duration)
    : exec (DB * (option Store * option error)) :=
  match Update (BoltError ErrCommit) commit_ok db (fun tx =>
          match CreateBucketIfNotExists ∅ tx sensorBucket with
          | inr e => Returns (tx, Some (CreateBucketError sensorBucket e))
          | inl tx' => Returns (tx', None)
          end) with
  | Panics => Panics
  | Returns (db', Some err) => Returns (db', (None, Some err))
  | Returns (db', None) =>
      Returns (db', (Some (mkStore resolution sensorBucket), None))
  end.

(** The database after a committed [Put] into the bucket of [sensorID]:
    [b] is that bucket after the [Put], [root] the root bucket before. *)
Definition written (s : Store) (d : DB) (root : Buckets) (sensorID : string)
    (b : Bucket) : DB :=
  <[rootBucket s := <[sensorID := b]> root]> d.

(** The bucket of a sensor, when the root bucket and the sensor's bucket
    exist. *)
Definition sensor_bucket (s : Store) (db : DB) (sensorID : string)
    : option Bucket :=
  match db !! rootBucket s with
  | Some root => root !! sensorID
  | None => None
  end.

(** The transaction of [StoreValuesChannel(sensorID)] that creates the
    sensor's bucket; the call then makes the channel and starts
    [storeValuesRoutine] on it (see [Routine] below). *)
Definition StoreValuesChannel (s : Store) (commit_ok : bool) (db : DB)
    (sensorID : string) : exec (DB * option error) :=
  Update (BoltError ErrCommit) commit_ok db (fun tx =>
    match tx !! rootBucket s with
    | None => Panics
    | Some root =>
        match CreateBucketIfNotExists [] root sensorID with
        | inr e => Returns (tx, Some (CreateBucketError sensorID e))
        | inl root' => Returns (<[rootBucket s := root']> tx, None)
        end
    end).

(** A key that [StoreValues] writes under the offset [off]: the text of a
    local time in the years 1 to 9999. *)
Definition canonical (off : Z) (k : string) : Prop :=
  exists a, in_years a /\ k = formatLocal a off.

(** A bucket in key order whose keys were all written under [off]. *)
Definition canonical_bucket (off : Z) (b : Bucket) : Prop :=
  ordered b /\ Forall (fun e => canonical off (fst e)) b.

Section Store.

(** The process's [time.Local], and the two functions of [encoding/json]
    at type [SensorValues]: [json.Marshal(values)] and
    [json.Unmarshal(v, &values)] on a zero [values]; [None] is the
    returned error. *)
Variable Local : Location.
Variable json_Marshal : SensorValues -> option string.
Variable json_Unmarshal : string -> option SensorValues.

(** [time.Now()]: the wall clock reading, presented in [time.Local]. *)
Definition Now (clock : Z) : Time := mkTime clock Local.

(** [time.Parse(timeFormat, value)]. *)
Definition time_Parse (value : string) : option Time := Parse Local value.

(** [convertToValues(k, v)] returns a result or an error, never both. *)
Definition convertToValues (k v : string) : TimedSensorValues + error :=
  match time_Parse k with
  | None => inr (ParseError k)
  | Some timestamp =>
      match json_Unmarshal v with
      | None => inr (UnmarshalError v)
      | Some values => inl (mkTimedSensorValues timestamp values)
      end
  end.

(** A Go pair [(result, err)] of a pointer and an error. *)
Definition pair_of {A} (r : A + error) : option A * option error :=
  match r with
  | inl a => (Some a, None)
  | inr e => (None, Some e)
  end.

(** [StoreValues(sensorID, values)]; [clock] is what [time.Now()] reads
    inside the transaction. *)
Definition StoreValues (s : Store) (clock : Z) (commit_ok : bool) (db : DB)
    (sensorID : string) (values : SensorValues) : exec (DB * option error) :=
  Update (BoltError ErrCommit) commit_ok db (fun tx =>
    match tx !! rootBucket s with
    | None => Panics
    | Some root =>
        let b := root !! sensorID in
        let now := Now clock in
        let key := Format (Truncate now (resolution s)) in
        match json_Marshal values with
        | None => Returns (tx, Some MarshalError)
        | Some value =>
            match b with
            | None => Panics
            | Some b =>
                match Put b key value with
                | inr e => Returns (tx, Some (BoltError e))
                | inl b' =>
                    Returns (<[rootBucket s := <[sensorID := b']> root]> tx, None)
                end
            end
        end
    end).

Definition ReadLastValue (s : Store) (db : DB) (sensorID : string)
    : exec (option TimedSensorValues * option error) :=
  View db (fun tx =>
    match tx !! rootBucket s with
    | None => Panics
    | Some root =>
        match root !! sensorID with
        | None => Panics
        | Some b =>
            let '(k, v) := item (Last b) in
            Returns (pair_of (convertToValues k v))
        end
    end).

(** The loop of [ReadValues]: [c] is the cursor, [valuesList] what has
    been collected. *)
Fixpoint readLoop (endTime : Time) (c : Cursor)
    (valuesList : list TimedSensorValues)
    : list TimedSensorValues * option error :=
  match c with
  | [] => (valuesList, None)
  | (k, v) :: next =>
      if (String.length k =? 0)%nat then (valuesList, None)
      else
        match time_Parse k with
        | None => (valuesList, Some (ParseError k))
        | Some currentKey =>
            if After currentKey endTime then (valuesList, None)
            else
              match convertToValues k v with
              | inr err => (valuesList, Some err)
              | inl values => readLoop endTime next (valuesList ++ [values])
              end
        end
  end.

(** *** Notions used to state what the queries return *)

(** The pairs [es] decoded in order, up to the first that does not
    decode. *)
Fixpoint decodeAll (es : list (string * string))
    (valuesList : list TimedSensorValues)
    : list TimedSensorValues * option error :=
  match es with
  | [] => (valuesList, None)
  | (k, v) :: rest =>
      match convertToValues k v with
      | inr err => (valuesList, Some err)
      | inl values => decodeAll rest (valuesList ++ [values])
      end
  end.

(** The pair's key denotes an instant from [from] to [to], in
    nanoseconds since the zero time. *)
Definition in_window (from to : Z) (e : string * string) : bool :=
  match time_Parse (fst e) with
  | Some t => (from <=? abs t) && (abs t <=? to)
  | None => false
  end.

(** The pair's key denotes an instant not after [to]. *)
Definition not_after (to : Z) (e : string * string) : bool :=
  match time_Parse (fst e) with
  | Some t => abs t <=? to
  | None => false
  end.

(** The start of the window of [ReadValues]. *)
Definition windowStart (s : Store) (clock : Z) (duration : Duration) : Time :=
  if 0 <? duration
  then Truncate (Add (Now clock) (- duration)) (resolution s)
  else Truncate (Add (Now clock) duration) (resolution s).

(** The bucket start of a write at [clock]. *)
Definition bucketStart (s : Store) (clock : Z) : Time :=
  Truncate (Now clock) (resolution s).

(** The local time of [t], in seconds since the zero time. *)
Definition localSeconds (t : Time) : Z := sec t + offset t.

(** [t] is presented in the years 1 to 9999 under an offset of whole
    minutes: [Format] writes it in full and [Parse] reads it back. *)
Definition presentable (t : Time) : Prop :=
  in_years (localSeconds t) /\ zone_ok (offset t).

(** [ReadValues(sensorID, duration)]; [clock] is what [time.Now()] reads. *)
Definition ReadValues (s : Store) (clock : Z) (db : DB) (sensorID : string)
    (duration : Duration) : exec (list TimedSensorValues * option error) :=
  let now := Now clock in
  let endTime := Truncate now (resolution s) in
  let start :=
    if 0 <? duration
    then Format (Truncate (Add now (- duration)) (resolution s))
    else Format (Truncate (Add now duration) (resolution s)) in
  View db (fun tx =>
    match tx !! rootBucket s with
    | None => Panics
    | Some root =>
        match root !! sensorID with
        | None => Panics
        | Some b => Returns (readLoop endTime (Seek b start) [])
        end
    end).

(** *** The writer routine

    [storeValuesRoutine(c, sensorID)] receives from the channel until it is
    closed and calls [StoreValues] on each value, dropping the error. A
    received value comes with what the call then reads from its
    environment: the clock, and whether the engine commits. *)

Record Received := mkReceived {
  rcv_values : SensorValues;
  rcv_clock : Z;
  rcv_commit : bool
}.

(** The channel as the routine sees it: the values sent and not yet
    received, in order, and whether the sender has closed it. *)
Record Chan := mkChan { sent : list Received; closed : bool }.

Inductive Status := Running | Stopped | Crashed.

Record Routine := mkRoutine { status : Status; chan : Chan; db : DB }.

(** One turn of the loop: a receive and what follows it. [None]: the
    routine makes no move, because it has returned or crashed, or because
    it waits on an open channel without a value. *)
Definition step (s : Store) (sensorID : string) (r : Routine)
    : option Routine :=
  match status r with
  | Running =>
      match sent (chan r) with
      | m :: rest =>
          match StoreValues s (rcv_clock m) (rcv_commit m) (db r) sensorID
                  (rcv_values m) with
          | Panics => Some (mkRoutine Crashed (mkChan rest (closed (chan r))) (db r))
          | Returns (db', _) =>
              Some (mkRoutine Running (mkChan rest (closed (chan r))) db')
          end
      | [] =>
          if closed (chan r)
          then Some (mkRoutine Stopped (chan r) (db r))
          else None
      end
  | Stopped | Crashed => None
  end.

(** The routine after at most [n] turns. *)
Fixpoint run (s : Store) (sensorID : string) (n : nat) (r : Routine)
    : Routine :=
  match n with
  | O => r
  | S n' =>
      match step s sensorID r with
      | Some r' => run s sensorID n' r'
      | None => r
      end
  end.

(** The database after the calls [StoreValues] on the values [ms] in
    order, each error dropped, as long as no call panics. *)
Fixpoint storeAll (s : Store) (sensorID : string) (ms : list Received)
    (d : DB) : DB :=
  match ms with
  | [] => d
  | m :: rest =>
      match StoreValues s (rcv_clock m) (rcv_commit m) d sensorID
              (rcv_values m) with
      | Panics => d
      | Returns (d', _) => storeAll s sensorID rest d'
      end
  end.

End Store.
End sensorstore.

(** ** [encoding/json] at type [SensorValues]: a reference instance

    The store is verified for any encoder and decoder (the section
    variables above). To run it on concrete values this module gives the
    two functions as Go computes them on the documents the store writes:
    [Marshal] prints each field with the shortest decimal that reads back
    as the same [float32] ([strconv.AppendFloat] with precision -1, in the
    layout the JSON encoder chooses), and [Unmarshal] reads an object of
    numbers, rounding each to the nearest [float32]. [Unmarshal] covers the
    fragment of JSON that [Marshal] produces, with white space, [null]
    members and members in any order; documents outside it are rejected. *)

Module json.
Import bytes sensorstore.

(** The finite non-zero value of [x] is [mant * 2 ^ exp2]. *)
Definition mant_exp (x : float32.t) : Z * Z :=
  if float32.exponent x =? 0 then (float32.fraction x, -149)
  else (float32.fraction x + 8388608, float32.exponent x - 150).

(** [10 ^ s] as a fraction. *)
Definition pow10 (s : Z) : Z * Z :=
  if 0 <=? s then (10 ^ s, 1) else (1, 10 ^ (- s)).

(** The least [dp], from [dp] on, with [vn / d < 10 ^ dp]. *)
Fixpoint decimalPoint (fuel : nat) (vn d dp : Z) : Z :=
  match fuel with
  | O => dp
  | S fuel' =>
      let '(pn, pd) := pow10 dp in
      if vn * pd <? pn * d then dp else decimalPoint fuel' vn d (dp + 1)
  end.

(** The shortest decimal [w * 10 ^ s] that rounds to [mant * 2 ^ exp2]:
    digit by digit, the value is cut down or rounded up as soon as one of
    the two lies between the halfway points [lo] and [hi] to the
    neighbouring floats (inclusive when [mant] is even). *)
Fixpoint shortestFrom (fuel : nat) (vn ln hn d : Z) (inclusive : bool)
    (dp n : Z) : Z * Z :=
  let s := dp - n in
  let '(un, ud) := pow10 s in
  let N := vn * ud in
  let M := d * un in
  let q := N / M in
  let r := N mod M in
  let okdown := (ln * ud <? q * M) || (inclusive && (ln * ud =? q * M)) in
  let okup := ((q + 1) * M <? hn * ud)
              || (inclusive && ((q + 1) * M =? hn * ud)) in
  let nearest :=
    if 2 * r <? M then q
    else if M <? 2 * r then q + 1
    else if Z.even q then q else q + 1 in
  match fuel with
  | O => (q, s)
  | S fuel' =>
      if r =? 0 then (q, s)
      else if okdown && okup then (nearest, s)
      else if okdown then (q, s)
      else if okup then (q + 1, s)
      else shortestFrom fuel' vn ln hn d inclusive dp (n + 1)
  end.

Fixpoint stripZeros (fuel : nat) (w s : Z) : Z * Z :=
  match fuel with
  | O => (w, s)
  | S fuel' =>
      if (w mod 10 =? 0) && negb (w =? 0) then stripZeros fuel' (w / 10) (s + 1)
      else (w, s)
  end.

(** The digits of the shortest decimal of a finite non-zero [x], and the
    position [dp] of the decimal point: the value is [0.digits * 10 ^ dp]. *)
Definition shortest (x : float32.t) : list ascii * Z :=
  let '(mant, exp2) := mant_exp x in
  let boundary := (mant =? 8388608) && (1 <? float32.exponent x) in
  let k := Z.max 0 (2 - exp2) in
  let up := Z.max 0 (exp2 - 2) in
  let d := 2 ^ k in
  let scale := 2 ^ (exp2 + k - 2 - up) * 2 ^ up in
  let vn := 4 * mant * scale in
  let ln := (if boundary then 4 * mant - 1 else 4 * mant - 2) * scale in
  let hn := (4 * mant + 2) * scale in
  let dp := decimalPoint 100 vn d (-50) in
  let '(w, s) := shortestFrom 120 vn ln hn d (Z.even mant) dp 1 in
  let '(w, s) := stripZeros 120 w s in
  let ds := decimal w in
  (ds, s + Z.of_nat (length ds)).

(** Digit [i] of [ds], ['0'] outside. *)
Definition digitAt (ds : list ascii) (i : Z) : ascii :=
  if i <? 0 then "0"%char else nth (Z.to_nat i) ds "0"%char.

Fixpoint digitsFrom (ds : list ascii) (from : Z) (count : nat) (rest : string)
    : string :=
  match count with
  | O => rest
  | S count' =>
      String (digitAt ds from) (digitsFrom ds (from + 1) count' rest)
  end.

(** [%f] with the shortest digits. *)
Definition fmtF (ds : list ascii) (dp : Z) : string :=
  let nd := Z.of_nat (length ds) in
  let prec := Z.max (nd - dp) 0 in
  let frac :=
    if 0 <? prec then String "." (digitsFrom ds dp (Z.to_nat prec) "")
    else EmptyString in
  if 0 <? dp then digitsFrom ds 0 (Z.to_nat dp) frac
  else String "0" frac.

(** [%e] with the shortest digits, the exponent as the JSON encoder leaves
    it: a sign and one or two digits. *)
Definition fmtE (ds : list ascii) (dp : Z) : string :=
  let exp := dp - 1 in
  let etext :=
    String "e" (String (if exp <? 0 then "-"%char else "+"%char)
      (of_chars (decimal (Z.abs exp)) "")) in
  match ds with
  | [] => String "0" etext
  | [c] => String c etext
  | c :: more => String c (String "." (of_chars more etext))
  end.

(** The bits of [float32(1e-6)] and of [float32(1e21)]. *)
Definition bits_1e_6 : Z := 897988541.
Definition bits_1e21 : Z := 1649989415.

(** The JSON text of a finite [float32]. *)
Definition formatFloat32 (x : float32.t) : string :=
  let a := Z.land x 2147483647 in
  let body :=
    if a =? 0 then "0"%string
    else
      let '(ds, dp) := shortest a in
      if (a <? bits_1e_6) || (bits_1e21 <=? a) then fmtE ds dp else fmtF ds dp in
  if float32.sign x then String "-" body else body.

(** The double quote. *)
Definition dquote : ascii := ascii_of_N 34.

(** A member name: the quoted field name and the colon. *)
Definition member (name : string) (rest : string) : string :=
  String dquote (String.append name (String dquote (String ":" rest))).

(** [json.Marshal(values)]: a NaN or an infinity is an
    [UnsupportedValueError]. *)
Definition Marshal (values : SensorValues) : option string :=
  let t := Temperature values in
  let h := Humidity values in
  if float32.IsNaN t || float32.IsInf t || float32.IsNaN h || float32.IsInf h
  then None
  else Some (String "{" (member "Temperature"
              (String.append (formatFloat32 t)
                (String "," (member "Humidity"
                  (String.append (formatFloat32 h) "}")))))).

(** [strconv.ParseFloat(s, 32)] on the decimal [w * 10 ^ k], [0 <= w]: the
    nearest [float32], ties to the even fraction; [None] when it is out of
    range. *)
Definition roundFloat32 (w k : Z) : option float32.t :=
  if w =? 0 then Some 0
  else
    let '(pn, pd) := pow10 k in
    let P := w * pn in
    let Q := pd in
    let e0 := Z.log2 P - Z.log2 Q - 23 in
    let ge (e : Z) :=
      (* 2 ^ (e + 23) <= P / Q *)
      if 0 <=? e + 23 then Q * 2 ^ (e + 23) <=? P
      else Q <=? P * 2 ^ (- (e + 23)) in
    let e := if ge (e0 + 1) then e0 + 1 else if ge e0 then e0 else e0 - 1 in
    let e := Z.max e (-149) in
    let num := if 0 <=? e then P else P * 2 ^ (- e) in
    let den := if 0 <=? e then Q * 2 ^ e else Q in
    let q := num / den in
    let r := num mod den in
    let m :=
      if den <? 2 * r then q + 1
      else if (den =? 2 * r) && Z.odd q then q + 1
      else q in
    let '(m, e) := if m =? 16777216 then (8388608, e + 1) else (m, e) in
    if 104 <? e then None
    else if m <? 8388608 then Some m
    else Some (Z.lor (Z.shiftl (e + 150) 23) (m - 8388608)).

Definition isSpace (c : ascii) : bool :=
  Ascii.eqb c " " || Ascii.eqb c (ascii_of_N 9) || Ascii.eqb c (ascii_of_N 10)
  || Ascii.eqb c (ascii_of_N 13).

Fixpoint skipSpace (s : string) : string :=
  match s with
  | String c rest => if isSpace c then skipSpace rest else s
  | EmptyString => s
  end.

Definition digitsValue (ds : list ascii) : Z :=
  fold_left (fun acc c => acc * 10 + digit_val c) ds 0.

(** A JSON number at the head of [s]: its sign, the decimal [w * 10 ^ k]
    and what follows. *)
Definition scanNumber (s : string) : option (bool * Z * Z * string) :=
  let '(neg, s) :=
    match s with
    | String "-" rest => (true, rest)
    | _ => (false, s)
    end in
  let '(int, s) := time.leadingDigits s in
  match int with
  | [] => None
  | c :: more =>
      if Ascii.eqb c "0" && negb (length more =? 0)%nat then None
      else
        let frac :=
          match s with
          | String "." rest =>
              let '(ds, rest') := time.leadingDigits rest in
              match ds with [] => None | _ => Some (ds, rest') end
          | _ => Some ([], s)
          end in
        match frac with
        | None => None
        | Some (fr, s) =>
            let w := digitsValue (int ++ fr) in
            let k := - Z.of_nat (length fr) in
            let exp (rest : string) (negative : bool) :=
              let '(ds, rest') := time.leadingDigits rest in
              match ds with
              | [] => None
              | _ => let x := digitsValue ds in
                     Some (neg, w, (k + if negative then - x else x), rest')
              end in
            match s with
            | String c rest =>
                if Ascii.eqb c "e" || Ascii.eqb c "E" then
                  match rest with
                  | String "+" rest' => exp rest' false
                  | String "-" rest' => exp rest' true
                  | _ => exp rest false
                  end
                else Some (neg, w, k, s)
            | EmptyString => Some (neg, w, k, s)
            end
        end
  end.

(** A member name without escapes, after its opening quote. *)
Fixpoint scanName (s : string) : option (string * string) :=
  match s with
  | String c rest =>
      if Ascii.eqb c dquote then Some (EmptyString, rest)
      else if Ascii.eqb c "\" || (N_of_ascii c <? 32)%N then None
      else match scanName rest with
           | Some (name, rest') => Some (String c name, rest')
           | None => None
           end
  | EmptyString => None
  end.

Definition lower (c : ascii) : ascii :=
  let n := N_of_ascii c in
  if (65 <=? n)%N && (n <=? 90)%N then ascii_of_N (n + 32) else c.

Fixpoint fold (s : string) : string :=
  match s with
  | String c rest => String (lower c) (fold rest)
  | EmptyString => s
  end.

(** The value of a member: a number, or [null], which leaves the field as
    it is. *)
Definition scanValue (s : string) : option (option float32.t * string) :=
  match s with
  | String "n" (String "u" (String "l" (String "l" rest))) => Some (None, rest)
  | _ =>
      match scanNumber s with
      | None => None
      | Some (neg, w, k, rest) =>
          match roundFloat32 w k with
          | None => None
          | Some x => Some (Some (if neg then Z.lor x 2147483648 else x), rest)
          end
      end
  end.

Definition setField (name : string) (x : option float32.t)
    (values : SensorValues) : SensorValues :=
  match x with
  | None => values
  | Some x =>
      if String.eqb (fold name) "temperature"
      then mkSensorValues x (Humidity values)
      else if String.eqb (fold name) "humidity"
      then mkSensorValues (Temperature values) x
      else values
  end.

(** The members of an object, after its opening brace or after a comma. *)
Fixpoint scanMembers (fuel : nat) (s : string) (values : SensorValues)
    : option SensorValues :=
  match fuel with
  | O => None
  | S fuel' =>
      match skipSpace s with
      | String c rest =>
          if negb (Ascii.eqb c dquote) then None
          else
            match scanName rest with
            | None => None
            | Some (name, rest) =>
                match skipSpace rest with
                | String ":" rest =>
                    match scanValue (skipSpace rest) with
                    | None => None
                    | Some (x, rest) =>
                        let values := setField name x values in
                        match skipSpace rest with
                        | String "," rest => scanMembers fuel' rest values
                        | String "}" rest =>
                            match skipSpace rest with
                            | EmptyString => Some values
                            | _ => None
                            end
                        | _ => None
                        end
                    end
                | _ => None
                end
            end
      | EmptyString => None
      end
  end.

(** [json.Unmarshal(data, &values)] on a zero [values]. *)
Definition Unmarshal (data : string) : option SensorValues :=
  let zero := mkSensorValues 0 0 in
  match skipSpace data with
  | String "{" rest =>
      match skipSpace rest with
      | String "}" rest' =>
          match skipSpace rest' with
          | EmptyString => Some zero
          | _ => None
          end
      | _ => scanMembers (String.length data) rest zero
      end
  | String "n" (String "u" (String "l" (String "l" rest))) =>
      match skipSpace rest with
      | EmptyString => Some zero
      | _ => None
      end
  | _ => None
  end.

End json.

(** ** The claims that the code does not meet, as the specification states
    them *)

Module as_stated.
Import time sensorstore.

Section Claims.

Variable Local : Location.
Variable json_Marshal : SensorValues -> option string.
Variable json_Unmarshal : string -> option SensorValues.

(** C2 as stated: the stored entry is keyed by the UTC text of the clock
    reading truncated to the resolution. *)
Definition C2 (s : Store) (clock : Z) (commit_ok : bool) (d : DB)
    (sensorID : string) (values : SensorValues) : Prop :=
  forall d',
    StoreValues Local json_Marshal s clock commit_ok d sensorID values
    = Returns (d', None) ->
    exists b value,
      sensor_bucket s d' sensorID = Some b
      /\ In (Format (mkTime (abs (bucketStart Local s clock)) UTC), value) b.

(** C3 as stated: [ReadValues] returns exactly the stored entries whose
    timestamp lies from the start to the end of the window. *)
Definition C3 (s : Store) (clock : Z) (d : DB) (sensorID : string)
    (duration : Duration) : Prop :=
  forall b,
    sensor_bucket s d sensorID = Some b ->
    ReadValues Local json_Unmarshal s clock d sensorID duration
    = Returns (decodeAll Local json_Unmarshal
                 (List.filter
                    (in_window Local (abs (windowStart Local s clock duration))
                       (abs (bucketStart Local s clock))) b) []).

(** C4 as stated, in its part on a missing namespace: the call returns an
    error and does not crash. *)
Definition C4 (s : Store) (clock : Z) (commit_ok : bool) (d : DB)
    (sensorID : string) (values : SensorValues) : Prop :=
  sensor_bucket s d sensorID = None ->
  exists d' e,
    StoreValues Local json_Marshal s clock commit_ok d sensorID values
    = Returns (d', Some e).

(** C5 as stated: after the writes [ms], what [ReadValues] returns is in
    non-decreasing timestamp order. *)
Definition C5 (s : Store) (d : DB) (sensorID : string) (ms : list Received)
    (clock : Z) (duration : Duration) : Prop :=
  forall vals err,
    ReadValues Local json_Unmarshal s clock
      (storeAll Local json_Marshal s sensorID ms d) sensorID duration
    = Returns (vals, err) ->
    StronglySorted (fun t u => abs t <= abs u) (map Timestamp vals).


End Claims.
End as_stated.

(** ** Concrete runs *)

Module scenario.
Import time sensorstore.

(** Europe/Berlin in the year 2024: summer time, two hours east of UTC,
    from March 31, 01:00 UTC, to October 27, 01:00 UTC; one hour east
    otherwise. *)
Definition Berlin : Location :=
  fun u => if (1711846800 <=? u) && (u <? 1729990800) then 7200 else 3600.

(** The store of [main]: a resolution of ten minutes, the sensor "test". *)
Definition store : Store := mkStore (10 * Minute) sensorBucket.
Definition sensorID : string := "test".

(** The database after [New] and [StoreValuesChannel], and the one after
    [New] alone. *)
Definition no_sensor : Buckets := ∅.
Definition empty_sensor : Buckets := <[sensorID := []]> no_sensor.
Definition provisioned : DB := <[sensorBucket := empty_sensor]> ∅.
Definition unprovisioned : DB := <[sensorBucket := no_sensor]> ∅.

(** The clock reading at a date and time of day, UTC. *)
Definition clock (y m d hh mm ss : Z) : Z := abs (Date y m d hh mm ss 0 UTC).

(** The values 21.5 and 55, the values 22 and 54, and values with a NaN. *)
Definition v1 : SensorValues := mkSensorValues 1101791232 1113325568.
Definition v2 : SensorValues := mkSensorValues 1102053376 1113063424.
Definition vNaN : SensorValues := mkSensorValues 2143289344 1113325568.

(** What [json.Marshal] writes for [v1] and for [v2]. *)
Definition text1 : string := default EmptyString (json.Marshal v1).
Definition text2 : string := default EmptyString (json.Marshal v2).

(** Under UTC: a write at 10:03:00, one at 10:07:00, one at 10:13:00, and
    a write of a NaN. *)
Definition u1 : Received := mkReceived v1 (clock 2024 1 2 10 3 0) true.
Definition u2 : Received := mkReceived v2 (clock 2024 1 2 10 7 0) true.
Definition u3 : Received := mkReceived v1 (clock 2024 1 2 10 13 0) true.
Definition uNaN : Received := mkReceived vNaN (clock 2024 1 2 10 5 0) true.

(** The database after [u1], and after [u1] and [u3]. *)
Definition after_u1 : DB :=
  storeAll UTC json.Marshal store sensorID [u1] provisioned.
Definition after_u1_u3 : DB :=
  storeAll UTC json.Marshal store sensorID [u1; u3] provisioned.

(** In Berlin, the night summer time ends: a write at 00:50 UTC (02:50
    local, two hours east) and one at 01:00 UTC (02:00 local, one hour
    east). *)
Definition w1 : Received := mkReceived v1 (clock 2024 10 27 0 50 0) true.
Definition w2 : Received := mkReceived v2 (clock 2024 10 27 1 0 0) true.

Definition after_w1_w2 : DB :=
  storeAll Berlin json.Marshal store sensorID [w1; w2] provisioned.

(** The database after a write of [v1] to [provisioned] under [key]. *)
Definition after_v1 (key : string) : DB :=
  written store provisioned empty_sensor sensorID [(key, text1)].


(** The instants of the timestamps that [ReadValues] returns. *)
Definition instants (r : exec (list TimedSensorValues * option error))
    : list Z :=
  match r with
  | Panics => []
  | Returns (l, _) => map (fun tv => abs (Timestamp tv)) l
  end.

(** The number of values a query returns, 0 if it panics. *)
Definition returned (r : exec (list TimedSensorValues * option error)) : nat :=
  match r with
  | Panics => 0%nat
  | Returns (l, _) => length l
  end.

End scenario.

(** ** Package [main] (src/main.go, first part)

    [main] opens the database, makes the store with [New], provisions the
    sensor with [StoreValuesChannel] and runs [readSensorValues]; each
    failure before the loop ends the process with [log.Fatalln]. *)

Module main.
Import time sensorstore.

Definition dbName : string := "cellarsense.db".
Definition sensorID : string := "test".
Definition entries : Z := 100.
Definition timeResolution : Duration := Minute * 10.

(** What [sensor.Read()] gives on success: the driver's two readings. *)
Record Reading := mkReading {
  reading_Temperature : float32.t;
  reading_Humidity : float32.t
}.

(** What the [select] of [readSensorValues] receives: a tick, with what
    [sensor.Read()] then returns ([None]: an error), or a signal. *)
Inductive Event :=
| Tick (read : option Reading)
| Signal.

(** How the loop stands after the events: it waits in [select], it has
    returned, or [log.Fatalln] has ended the process. *)
Inductive Exit := Waits | Returned | Fatal.

(** [readSensorValues(c, ticker, signals)] on the events its [select]
    receives in order: the values it sends on [c], and how it stands. Each
    send is taken to be received (the writer routine is running). *)
Fixpoint readSensorValues (events : list Event) : list SensorValues * Exit :=
  match events with
  | [] => ([], Waits)
  | Tick None :: _ => ([], Fatal)
  | Tick (Some values) :: rest =>
      let '(sent, exit) := readSensorValues rest in
      (mkSensorValues (reading_Temperature values) (reading_Humidity values)
         :: sent, exit)
  | Signal :: _ => ([], Returned)
  end.

(** How [main] stands when it reaches the loop: the process has exited
    through [log.Fatalln], it has panicked, or the store serves. *)
Inductive Started :=
| Exits (d : DB)
| Crashes
| Serves (s : Store) (d : DB).

(** [main] up to the call of [readSensorValues]: [opened] tells whether
    [bolt.Open] succeeds, [commit1] and [commit2] whether the engine commits
    the transaction of [New] and that of [StoreValuesChannel]. *)
Definition start (opened commit1 commit2 : bool) (d : DB) : Started :=
  if negb opened then Exits d
  else
    match New commit1 d timeResolution with
    | Panics => Crashes
    | Returns (d1, (Some store, None)) =>
        match StoreValuesChannel store commit2 d1 sensorID with
        | Panics => Crashes
        | Returns (d2, None) => Serves store d2
        | Returns (d2, Some _) => Exits d2
        end
    | Returns (d1, _) => Exits d1
    end.

End main.

(** * Facts about digits and byte strings *)

Module bytes_facts.
Import bytes.

Lemma digit_cases u : 0 <= u <= 9 ->
  u = 0 \/ u = 1 \/ u = 2 \/ u = 3 \/ u = 4 \/ u = 5 \/ u = 6 \/ u = 7
  \/ u = 8 \/ u = 9.
Proof. lia. Qed.

Ltac each_digit u H :=
  destruct (digit_cases u H) as [->|[->|[->|[->|[->|[->|[->|[->|[->| ->]]]]]]]]].

Lemma is_digit_char u : 0 <= u <= 9 -> is_digit (digit_char u) = true.
Proof. intros H. each_digit u H; reflexivity. Qed.

Lemma digit_val_char u : 0 <= u <= 9 -> digit_val (digit_char u) = u.
Proof. intros H. each_digit u H; reflexivity. Qed.

Lemma N_of_digit_char u : 0 <= u <= 9 -> N_of_ascii (digit_char u) = Z.to_N (48 + u).
Proof. intros H. each_digit u H; reflexivity. Qed.

Lemma digit_char_compare u v : 0 <= u <= 9 -> 0 <= v <= 9 ->
  Ascii.compare (digit_char u) (digit_char v) = (u ?= v).
Proof.
  intros Hu Hv. unfold Ascii.compare.
  rewrite !N_of_digit_char by assumption.
  rewrite Z2N.inj_compare by lia.
  destruct (Z.compare_spec u v), (Z.compare_spec (48 + u) (48 + v)); lia || reflexivity.
Qed.

Lemma ascii_compare_refl c : Ascii.compare c c = Eq.
Proof. apply N.compare_refl. Qed.

Lemma compare_refl s : String.compare s s = Eq.
Proof. induction s as [|c s IH]; simpl; [|rewrite ascii_compare_refl]; auto. Qed.

Lemma compare_same_head c s s' :
  String.compare (String c s) (String c s') = String.compare s s'.
Proof. simpl. now rewrite ascii_compare_refl. Qed.

Lemma compare_trans a : forall b c,
  String.compare a b = Lt -> String.compare b c = Lt -> String.compare a c = Lt.
Proof.
  induction a as [|x a IH]; intros [|y b] [|z c]; simpl; try congruence.
  unfold Ascii.compare.
  destruct (N.compare_spec (N_of_ascii x) (N_of_ascii y)) as [E|L|G]; try congruence;
  destruct (N.compare_spec (N_of_ascii y) (N_of_ascii z)) as [E'|L'|G']; try congruence;
  intros H1 H2.
  - rewrite E, E', N.compare_refl. eauto.
  - rewrite E. apply N.compare_lt_iff in L'. now rewrite L'.
  - rewrite <- E'. apply N.compare_lt_iff in L. now rewrite L.
  - assert (N_of_ascii x < N_of_ascii z)%N as L2 by lia.
    apply N.compare_lt_iff in L2. now rewrite L2.
Qed.

Lemma compare_Gt_Lt a b : String.compare a b = Gt <-> String.compare b a = Lt.
Proof.
  rewrite (String.compare_antisym b a). destruct (String.compare a b); simpl;
    split; congruence.
Qed.

Lemma compare_Eq a b : String.compare a b = Eq <-> a = b.
Proof. split; [apply String.compare_eq_iff | intros ->; apply compare_refl]. Qed.

(** Two digits compare as the numbers they write. *)
Lemma compare_pad2 u v s s' : 0 <= u < 100 -> 0 <= v < 100 ->
  String.compare (pad2 u s) (pad2 v s')
  = match u ?= v with Eq => String.compare s s' | c => c end.
Proof.
  intros Hu Hv. unfold pad2. cbn [String.compare].
  rewrite !digit_char_compare by (Z.div_mod_to_equations; lia).
  destruct (Z.compare_spec (u / 10) (v / 10)), (Z.compare_spec (u mod 10) (v mod 10)),
    (Z.compare_spec u v); try reflexivity; Z.div_mod_to_equations; lia.
Qed.

Lemma pad4_pad2 u s : 0 <= u ->
  pad4 u s = pad2 (u / 100) (pad2 (u mod 100) s).
Proof.
  intros H. unfold pad4, pad2.
  replace (u / 100 / 10) with (u / 1000) by (Z.div_mod_to_equations; lia).
  replace (u mod 100 / 10) with (u / 10 mod 10) by (Z.div_mod_to_equations; lia).
  replace (u mod 100 mod 10) with (u mod 10) by (Z.div_mod_to_equations; lia).
  reflexivity.
Qed.

Lemma compare_pad4 u v s s' : 0 <= u < 10000 -> 0 <= v < 10000 ->
  String.compare (pad4 u s) (pad4 v s')
  = match u ?= v with Eq => String.compare s s' | c => c end.
Proof.
  intros Hu Hv. rewrite !pad4_pad2 by lia.
  rewrite !compare_pad2 by (Z.div_mod_to_equations; lia).
  destruct (Z.compare_spec (u / 100) (v / 100)),
    (Z.compare_spec (u mod 100) (v mod 100)),
    (Z.compare_spec u v); try reflexivity; Z.div_mod_to_equations; lia.
Qed.

Lemma appendInt_pad2 u s : 0 <= u < 100 -> appendInt u 2 s = pad2 u s.
Proof.
  intros H. unfold appendInt. rewrite Z.abs_eq by lia.
  destruct (Z.ltb_spec u 100); [|lia]. destruct (Z.ltb_spec u 0); [lia|reflexivity].
Qed.

Lemma appendInt_pad4 u s : 0 <= u < 10000 -> appendInt u 4 s = pad4 u s.
Proof.
  intros H. unfold appendInt. rewrite Z.abs_eq by lia.
  destruct (Z.ltb_spec u 10000); [|lia]. destruct (Z.ltb_spec u 0); [lia|reflexivity].
Qed.

End bytes_facts.

(** * Facts about the calendar, [Format] and [Parse] *)

Module time_facts.
Import bytes time bytes_facts.

Lemma all_from_spec n : forall z p, all_from n z p = true ->
  forall x, z <= x < z + Z.of_nat n -> p x = true.
Proof.
  induction n as [|n IH]; intros z p H x Hx; [lia|].
  simpl in H. apply andb_prop in H as [Hz Hrest].
  destruct (Z.eq_dec x z) as [->|Hne]; [exact Hz|].
  apply (IH (z + 1) p Hrest). lia.
Qed.

Lemma month_ok_all doy : 0 <= doy <= 365 -> month_ok doy = true.
Proof.
  intros H.
  apply (all_from_spec 366 0 month_ok); [vm_compute; reflexivity | lia].
Qed.

Lemma year_of_era doe :
  0 <= doe < daysPerEra ->
  let yoe := (doe - doe / 1460 + doe / 36524 - doe / 146096) / 365 in
  let doy := doe - (365 * yoe + yoe / 4 - yoe / 100) in
  0 <= yoe <= 399 /\ 0 <= doy <= 365
  /\ (doy = 365 -> isLeap (yoe + 1) = true).
Proof.
  intros Hdoe yoe doy. unfold daysPerEra in Hdoe.
  assert (H : 0 <= yoe <= 399 /\ 0 <= doy <= 365
               /\ (doy = 365 -> (yoe + 1) mod 4 = 0
                     /\ ((yoe + 1) mod 100 <> 0 \/ yoe = 399))).
  { subst doy yoe. Z.div_mod_to_equations; lia. }
  destruct H as (Hy & Hd & Hl). repeat split; try lia.
  intros E. destruct (Hl E) as [H4 H100]. unfold isLeap.
  rewrite H4. simpl. destruct H100 as [H100 | ->]; [|reflexivity].
  apply Z.eqb_neq in H100. rewrite H100. reflexivity.
Qed.

Lemma civil_of_doe_spec doe y m d :
  0 <= doe < daysPerEra ->
  civil_of_doe doe = (y, m, d) ->
  valid_date y m d
  /\ 0 <= (if m <=? 2 then y - 1 else y) <= 399
  /\ days_from_civil y m d = doe - 306.
Proof.
  intros Hdoe H. pose proof (year_of_era doe Hdoe) as Hy.
  unfold civil_of_doe in H. cbv zeta in Hy.
  set (yoe := (doe - doe / 1460 + doe / 36524 - doe / 146096) / 365) in *.
  set (doy := doe - (365 * yoe + yoe / 4 - yoe / 100)) in *.
  destruct Hy as (Hyoe & Hdoy & Hleap).
  pose proof (month_ok_all doy Hdoy) as Hm. unfold month_ok in Hm.
  set (mp := (5 * doy + 2) / 153) in *.
  set (dd := doy - (153 * mp + 2) / 5 + 1) in *.
  repeat (apply andb_prop in Hm as [Hm ?]).
  assert (Hmp : 0 <= mp <= 11) by lia.
  assert (Hdd : 1 <= dd) by lia.
  injection H as <- <- <-.
  assert (Hcases : mp = 0 \/ mp = 1 \/ mp = 2 \/ mp = 3 \/ mp = 4 \/ mp = 5
                   \/ mp = 6 \/ mp = 7 \/ mp = 8 \/ mp = 9 \/ mp = 10 \/ mp = 11) by lia.
  assert (Hinv : forall yy mm,
     (if mm <=? 2 then yy - 1 else yy) = yoe ->
     (if 2 <? mm then mm - 3 else mm + 9) = mp ->
     days_from_civil yy mm dd = doe - 306).
  { intros yy mm Ey Em. unfold days_from_civil, daysPerEra. rewrite Ey, Em.
    rewrite (Z.div_small yoe 400), (Z.mod_small yoe 400) by lia.
    subst dd doy. lia. }
  unfold valid_date.
  destruct Hcases as [E|[E|[E|[E|[E|[E|[E|[E|[E|[E|[E|E]]]]]]]]]]];
    rewrite E in *; simpl in *;
    (split; [split; [lia|] | split; [lia | apply Hinv; simpl; lia]]).
  all: unfold daysIn; simpl; try lia.
  destruct (Z.eqb_spec doy 365) as [E365|].
  - rewrite (Hleap E365). simpl. lia.
  - destruct (isLeap (yoe + 1)); simpl; lia.
Qed.

Lemma isLeap_era y e : isLeap (y + 400 * e) = isLeap y.
Proof.
  unfold isLeap.
  replace ((y + 400 * e) mod 4) with (y mod 4) by (Z.div_mod_to_equations; lia).
  replace ((y + 400 * e) mod 100) with (y mod 100) by (Z.div_mod_to_equations; lia).
  replace ((y + 400 * e) mod 400) with (y mod 400) by (Z.div_mod_to_equations; lia).
  reflexivity.
Qed.

(** The date of a day is a date of the calendar, and the day is its
    number. *)
Lemma civil_from_days_spec days y m d :
  civil_from_days days = (y, m, d) ->
  valid_date y m d /\ days_from_civil y m d = days.
Proof.
  unfold civil_from_days. intros H.
  destruct (civil_of_doe ((days + 306) mod daysPerEra)) as [[y0 m0] d0] eqn:E.
  injection H as <- <- <-.
  assert (Hdoe : 0 <= (days + 306) mod daysPerEra < daysPerEra)
    by (apply Z.mod_pos_bound; reflexivity).
  destruct (civil_of_doe_spec _ _ _ _ Hdoe E) as ([Hm Hd] & Hy & Hinv).
  split.
  - split; [exact Hm|]. unfold daysIn in *. rewrite isLeap_era. exact Hd.
  - revert Hinv. unfold days_from_civil.
    set (e := (days + 306) / daysPerEra).
    set (y' := if m0 <=? 2 then y0 - 1 else y0) in *.
    replace (if m0 <=? 2 then y0 + 400 * e - 1 else y0 + 400 * e)
      with (y' + e * 400) by (subst y'; destruct (m0 <=? 2); lia).
    rewrite Z.div_add, Z.mod_add by lia.
    rewrite (Z.div_small y' 400), (Z.mod_small y' 400) by lia.
    intros Hinv.
    pose proof (Z.div_mod (days + 306) daysPerEra ltac:(unfold daysPerEra; lia)).
    fold e in H. lia.
Qed.

Lemma marchFirst_closed y : marchFirst y = 365 * y + y / 4 - y / 100 + y / 400.
Proof. unfold marchFirst, daysPerEra. Z.div_mod_to_equations; lia. Qed.

Lemma marchFirst_mono a b : a <= b -> marchFirst a + 365 * (b - a) <= marchFirst b.
Proof. rewrite !marchFirst_closed. intros. Z.div_mod_to_equations; lia. Qed.

Lemma marchFirst_leap y :
  isLeap (y + 1) = true -> marchFirst (y + 1) = marchFirst y + 366.
Proof.
  rewrite !marchFirst_closed. unfold isLeap. intros H.
  apply andb_prop in H as [H4 H]. apply Z.eqb_eq in H4.
  apply orb_prop in H as [H|H].
  - apply negb_true_iff, Z.eqb_neq in H. Z.div_mod_to_equations; lia.
  - apply Z.eqb_eq in H. Z.div_mod_to_equations; lia.
Qed.

Lemma days_from_civil_eq y m d :
  days_from_civil y m d
  = marchFirst (if m <=? 2 then y - 1 else y) + dayOfYear m d - 306.
Proof. unfold days_from_civil, marchFirst, dayOfYear. lia. Qed.

Lemma month_cases m : 1 <= m <= 12 ->
  m = 1 \/ m = 2 \/ m = 3 \/ m = 4 \/ m = 5 \/ m = 6 \/ m = 7
  \/ m = 8 \/ m = 9 \/ m = 10 \/ m = 11 \/ m = 12.
Proof. lia. Qed.

Lemma dayOfYear_bounds y m d : valid_date y m d ->
  (if m <=? 2 then 306 <= dayOfYear m d /\
       (dayOfYear m d <= 364 \/ dayOfYear m d = 365 /\ isLeap y = true)
   else 0 <= dayOfYear m d <= 305).
Proof.
  intros [Hm Hd]. unfold dayOfYear. unfold daysIn in Hd.
  destruct (isLeap y);
  destruct (month_cases m Hm) as [E|[E|[E|[E|[E|[E|[E|[E|[E|[E|[E|E]]]]]]]]]]];
    subst m; cbn in Hd |- *; Z.div_mod_to_equations; lia.
Qed.

Lemma dayOfYear_mono y m1 d1 m2 d2 :
  valid_date y m1 d1 -> 1 <= m2 <= 12 -> 1 <= d2 ->
  (if 2 <? m1 then m1 - 3 else m1 + 9) < (if 2 <? m2 then m2 - 3 else m2 + 9) ->
  dayOfYear m1 d1 < dayOfYear m2 d2.
Proof.
  intros [Hm Hd] Hm2 Hd2. unfold dayOfYear. unfold daysIn in Hd.
  destruct (isLeap y);
  destruct (month_cases m1 Hm) as [E|[E|[E|[E|[E|[E|[E|[E|[E|[E|[E|E]]]]]]]]]]];
    subst m1; cbn in Hd |- *; intros; destruct (2 <? m2);
    Z.div_mod_to_equations; lia.
Qed.

(** A later date has a greater number. *)
Lemma days_from_civil_mono y1 m1 d1 y2 m2 d2 :
  valid_date y1 m1 d1 -> valid_date y2 m2 d2 ->
  civil_lt (y1, m1, d1) (y2, m2, d2) ->
  days_from_civil y1 m1 d1 < days_from_civil y2 m2 d2.
Proof.
  intros V1 V2 L. rewrite !days_from_civil_eq.
  pose proof (dayOfYear_bounds _ _ _ V1) as B1.
  pose proof (dayOfYear_bounds _ _ _ V2) as B2.
  simpl in L.
  destruct (Z.leb_spec m1 2) as [A1|A1], (Z.leb_spec m2 2) as [A2|A2].
  - destruct L as [L|[-> L]].
    + pose proof (marchFirst_mono (y1 - 1 + 1) (y2 - 1) ltac:(lia)).
      pose proof (marchFirst_mono (y1 - 1) (y1 - 1 + 1) ltac:(lia)).
      destruct B1 as [? [?|[? Hl]]]; [lia|].
      replace y1 with (y1 - 1 + 1) in Hl by lia.
      pose proof (marchFirst_leap _ Hl). lia.
    + destruct L as [L|[-> L]].
      * pose proof (dayOfYear_mono y2 m1 d1 m2 d2 V1 (proj1 V2) (proj1 (proj2 V2))) as M.
        destruct (Z.ltb_spec 2 m1), (Z.ltb_spec 2 m2); lia.
      * unfold dayOfYear. lia.
  - assert (L' : y1 <= y2) by lia. clear L.
    pose proof (marchFirst_mono (y1 - 1 + 1) y2 ltac:(lia)).
    pose proof (marchFirst_mono (y1 - 1) (y1 - 1 + 1) ltac:(lia)).
    destruct B1 as [? [?|[? Hl]]]; [lia|].
    replace y1 with (y1 - 1 + 1) in Hl by lia.
    pose proof (marchFirst_leap _ Hl). lia.
  - destruct L as [L|[-> L]]; [|lia].
    pose proof (marchFirst_mono y1 (y2 - 1) ltac:(lia)). lia.
  - destruct L as [L|[-> L]].
    + pose proof (marchFirst_mono y1 y2 ltac:(lia)). lia.
    + destruct L as [L|[-> L]].
      * pose proof (dayOfYear_mono y2 m1 d1 m2 d2 V1 (proj1 V2) (proj1 (proj2 V2))) as M.
        destruct (Z.ltb_spec 2 m1), (Z.ltb_spec 2 m2); lia.
      * unfold dayOfYear. lia.
Qed.

(** A later day has a later date. *)
Lemma civil_from_days_mono days1 days2 :
  days1 < days2 -> civil_lt (civil_from_days days1) (civil_from_days days2).
Proof.
  intros L.
  destruct (civil_from_days days1) as [[y1 m1] d1] eqn:E1.
  destruct (civil_from_days days2) as [[y2 m2] d2] eqn:E2.
  destruct (civil_from_days_spec _ _ _ _ E1) as [V1 I1].
  destruct (civil_from_days_spec _ _ _ _ E2) as [V2 I2].
  assert (T : civil_lt (y1, m1, d1) (y2, m2, d2)
              \/ (y1, m1, d1) = (y2, m2, d2)
              \/ civil_lt (y2, m2, d2) (y1, m1, d1)).
  { simpl. destruct (Z.lt_total y1 y2) as [?|[->|?]]; [lia| |lia].
    destruct (Z.lt_total m1 m2) as [?|[->|?]]; [lia| |lia].
    destruct (Z.lt_total d1 d2) as [?|[->|?]]; [lia| |lia].
    right. left. reflexivity. }
  destruct T as [T|[T|T]]; [exact T| |].
  - injection T as -> -> ->. lia.
  - pose proof (days_from_civil_mono _ _ _ _ _ _ V2 V1 T). lia.
Qed.

(** The years 1 to 9999. *)
Lemma civil_year_range days y m d :
  civil_from_days days = (y, m, d) ->
  0 <= days < 3652059 -> 1 <= y <= 9999.
Proof.
  intros E H.
  destruct (Z.eq_dec days 0) as [->|N0].
  { vm_compute in E. injection E as <- <- <-. lia. }
  pose proof (civil_from_days_mono 0 days ltac:(lia)) as L0.
  pose proof (civil_from_days_mono days 3652059 ltac:(lia)) as L1.
  rewrite E in L0, L1.
  change (civil_from_days 0) with (1, 1, 1) in L0.
  change (civil_from_days 3652059) with (10000, 1, 1) in L1.
  unfold civil_lt in L0, L1.
  destruct (proj1 (civil_from_days_spec _ _ _ _ E)) as [? [? ?]]. lia.
Qed.


Lemma daysIn_le y m : daysIn m y <= 31.
Proof.
  unfold daysIn.
  repeat match goal with |- context [if ?c then _ else _] => destruct c end; lia.
Qed.

(** The fields of a local time in the years 1 to 9999. *)
Lemma fields_range a y m d :
  in_years a -> civil_from_days (a / secondsPerDay) = (y, m, d) ->
  1 <= y <= 9999 /\ 1 <= m <= 12 /\ 1 <= d <= 31
  /\ 0 <= a mod secondsPerDay < 86400.
Proof.
  unfold in_years, maxSeconds, secondsPerDay. intros Ha E.
  pose proof (civil_year_range _ _ _ _ E
                ltac:(Z.div_mod_to_equations; lia)) as Hy.
  destruct (civil_from_days_spec _ _ _ _ E) as [[Hm Hd] _].
  pose proof (daysIn_le y m).
  repeat split; try lia; Z.div_mod_to_equations; lia.
Qed.

Lemma formatLocal_eq a off y m d :
  in_years a -> civil_from_days (a / secondsPerDay) = (y, m, d) ->
  formatLocal a off
  = pad4 y (String "-" (pad2 m (String "-" (pad2 d (String "T"
      (pad2 (a mod secondsPerDay / 3600) (String ":"
        (pad2 (a mod secondsPerDay / 60 mod 60) (String ":"
          (pad2 (a mod secondsPerDay mod 60) (formatZone off ""))))))))))).
Proof.
  intros Ha E. destruct (fields_range _ _ _ _ Ha E) as (Hy & Hm & Hd & Hs).
  unfold formatLocal. rewrite E. cbv zeta.
  rewrite appendInt_pad4 by lia.
  rewrite !appendInt_pad2 by (Z.div_mod_to_equations; lia).
  reflexivity.
Qed.

Lemma time_of_day_lt s1 s2 : 0 <= s1 -> s1 < s2 ->
  s1 / 3600 < s2 / 3600
  \/ s1 / 3600 = s2 / 3600
     /\ (s1 / 60 mod 60 < s2 / 60 mod 60
         \/ s1 / 60 mod 60 = s2 / 60 mod 60 /\ s1 mod 60 < s2 mod 60).
Proof. intros. Z.div_mod_to_equations; lia. Qed.

(** Under one offset, and in the years 1 to 9999, the text of an earlier
    local time is the lesser byte string. *)
Lemma formatLocal_lt a1 a2 off :
  in_years a1 -> in_years a2 -> a1 < a2 ->
  String.compare (formatLocal a1 off) (formatLocal a2 off) = Lt.
Proof.
  intros H1 H2 L.
  destruct (civil_from_days (a1 / secondsPerDay)) as [[y1 m1] d1] eqn:E1.
  destruct (civil_from_days (a2 / secondsPerDay)) as [[y2 m2] d2] eqn:E2.
  rewrite (formatLocal_eq _ _ _ _ _ H1 E1), (formatLocal_eq _ _ _ _ _ H2 E2).
  destruct (fields_range _ _ _ _ H1 E1) as (Hy1 & Hm1 & Hd1 & Hs1).
  destruct (fields_range _ _ _ _ H2 E2) as (Hy2 & Hm2 & Hd2 & Hs2).
  assert (D : a1 / secondsPerDay < a2 / secondsPerDay
              \/ a1 / secondsPerDay = a2 / secondsPerDay
                 /\ a1 mod secondsPerDay < a2 mod secondsPerDay)
    by (unfold secondsPerDay; Z.div_mod_to_equations; lia).
  set (s1 := a1 mod secondsPerDay) in *. set (s2 := a2 mod secondsPerDay) in *.
  assert (F : civil_lt (y1, m1, d1) (y2, m2, d2)
              \/ (y1 = y2 /\ m1 = m2 /\ d1 = d2) /\ s1 < s2).
  { destruct D as [D|[D Ds]].
    - left. rewrite <- E1, <- E2. now apply civil_from_days_mono.
    - right. rewrite D, E2 in E1. injection E1 as -> -> ->. auto. }
  pose proof (time_of_day_lt s1 s2 ltac:(lia)) as T.
  rewrite compare_pad4 by lia.
  rewrite !compare_same_head, compare_pad2 by lia.
  rewrite !compare_same_head, compare_pad2 by lia.
  rewrite !compare_same_head, compare_pad2 by (Z.div_mod_to_equations; lia).
  rewrite !compare_same_head, compare_pad2 by (Z.div_mod_to_equations; lia).
  rewrite !compare_same_head, compare_pad2 by (Z.div_mod_to_equations; lia).
  rewrite compare_refl.
  unfold civil_lt in F.
  repeat match goal with
         | |- context [?x ?= ?y] => destruct (Z.compare_spec x y)
         end; try reflexivity; exfalso; lia.
Qed.

Lemma formatLocal_compare a1 a2 off :
  in_years a1 -> in_years a2 ->
  String.compare (formatLocal a1 off) (formatLocal a2 off) = (a1 ?= a2).
Proof.
  intros H1 H2. destruct (Z.compare_spec a1 a2) as [->|L|G].
  - apply compare_refl.
  - now apply formatLocal_lt.
  - apply compare_Gt_Lt. now apply formatLocal_lt.
Qed.

(** *** [Parse] reads what [Format] writes *)

Lemma getnum_pad2 u rest fixed :
  0 <= u < 100 -> getnum (pad2 u rest) fixed = Some (u, rest).
Proof.
  intros H. unfold pad2, getnum.
  rewrite !is_digit_char, !digit_val_char by (Z.div_mod_to_equations; lia).
  do 2 f_equal. Z.div_mod_to_equations; lia.
Qed.

Lemma parseYear_pad4 y rest :
  0 <= y < 10000 -> parseYear (pad4 y rest) = Some (y, rest).
Proof.
  intros H. unfold pad4, parseYear.
  rewrite !is_digit_char, !digit_val_char by (Z.div_mod_to_equations; lia).
  simpl. do 2 f_equal. Z.div_mod_to_equations; lia.
Qed.

(** The zone that [formatZone] writes for an offset of whole minutes. *)
Lemma formatZone_eq off rest : zone_ok off -> off <> 0 ->
  formatZone off rest
  = String (if off <? 0 then "-"%char else "+"%char)
      (pad2 (Z.abs off / 3600) (String ":" (pad2 (Z.abs off / 60 mod 60) rest))).
Proof.
  unfold zone_ok, secondsPerDay. intros [Hm Hr] Hn. unfold formatZone.
  destruct (Z.eqb_spec off 0); [contradiction|].
  assert (Q : Z.quot off 60 = off / 60).
  { assert (E : off = off / 60 * 60) by (Z.div_mod_to_equations; lia).
    set (k := off / 60) in *. clearbody k. rewrite E. apply Z.quot_mul. lia. }
  rewrite Q.
  replace (off / 60 <? 0) with (off <? 0)
    by (destruct (Z.ltb_spec off 0), (Z.ltb_spec (off / 60) 0);
        try reflexivity; Z.div_mod_to_equations; lia).
  rewrite !appendInt_pad2 by (Z.div_mod_to_equations; lia).
  replace (Z.abs (off / 60) / 60) with (Z.abs off / 3600)
    by (Z.div_mod_to_equations; lia).
  replace (Z.abs (off / 60) mod 60) with (Z.abs off / 60 mod 60)
    by (Z.div_mod_to_equations; lia).
  reflexivity.
Qed.

Lemma parseFraction_formatZone off : zone_ok off ->
  parseFraction (formatZone off "") = (0, formatZone off "").
Proof.
  intros Hz. destruct (Z.eq_dec off 0) as [->|Hn]; [reflexivity|].
  rewrite formatZone_eq by assumption. unfold pad2.
  destruct (off <? 0); reflexivity.
Qed.

Lemma parseZone_formatZone off : zone_ok off ->
  parseZone (formatZone off "")
  = Some (if off =? 0 then None else Some off, EmptyString).
Proof.
  intros Hz. destruct (Z.eq_dec off 0) as [->|Hn]; [reflexivity|].
  rewrite formatZone_eq by assumption.
  destruct Hz as [Hm Hr]. unfold secondsPerDay in Hr.
  destruct (Z.eqb_spec off 0); [contradiction|].
  assert (G1 : getnum (pad2 (Z.abs off / 3600) "") true
               = Some (Z.abs off / 3600, EmptyString))
    by (apply getnum_pad2; Z.div_mod_to_equations; lia).
  assert (G2 : getnum (pad2 (Z.abs off / 60 mod 60) "") true
               = Some (Z.abs off / 60 mod 60, EmptyString))
    by (apply getnum_pad2; Z.div_mod_to_equations; lia).
  unfold pad2 in *.
  assert (R : (24 <? Z.abs off / 3600) || (60 <? Z.abs off / 60 mod 60) = false).
  { apply orb_false_iff. split; apply Z.ltb_ge; Z.div_mod_to_equations; lia. }
  assert (V : (Z.abs off / 3600 * 60 + Z.abs off / 60 mod 60) * 60 = Z.abs off)
    by (Z.div_mod_to_equations; lia).
  destruct (Z.ltb_spec off 0); cbn -[getnum Z.mul Z.add Z.div Z.modulo Z.abs Z.ltb];
    rewrite G1, G2, R, V; do 3 f_equal; lia.
Qed.

Lemma Parse_formatLocal Local a off :
  in_years a -> zone_ok off ->
  Parse Local (formatLocal a off)
  = Some (mkTime ((a - off) * Second)
            (parsedLoc Local off (a - off - unixToInternal))).
Proof.
  intros Ha Hz.
  destruct (civil_from_days (a / secondsPerDay)) as [[y m] d] eqn:E.
  rewrite (formatLocal_eq _ _ _ _ _ Ha E).
  destruct (fields_range _ _ _ _ Ha E) as (Hy & Hm & Hd & Hs).
  destruct (civil_from_days_spec _ _ _ _ E) as [[_ Hdim] Hinv].
  set (s := a mod secondsPerDay) in *.
  unfold Parse.
  rewrite parseYear_pad4 by lia. cbn [skip Ascii.eqb Bool.eqb].
  rewrite getnum_pad2 by lia.
  replace ((m <=? 0) || (12 <? m)) with false
    by (symmetry; apply orb_false_iff; split; [apply Z.leb_gt|apply Z.ltb_ge]; lia).
  cbn [skip Ascii.eqb Bool.eqb].
  rewrite getnum_pad2 by lia. cbn [skip Ascii.eqb Bool.eqb].
  rewrite getnum_pad2 by (Z.div_mod_to_equations; lia).
  replace ((s / 3600 <? 0) || (24 <=? s / 3600)) with false
    by (symmetry; apply orb_false_iff; split; [apply Z.ltb_ge|apply Z.leb_gt];
        Z.div_mod_to_equations; lia).
  cbn [skip Ascii.eqb Bool.eqb].
  rewrite getnum_pad2 by (Z.div_mod_to_equations; lia).
  replace ((s / 60 mod 60 <? 0) || (60 <=? s / 60 mod 60)) with false
    by (symmetry; apply orb_false_iff; split; [apply Z.ltb_ge|apply Z.leb_gt];
        Z.div_mod_to_equations; lia).
  cbn [skip Ascii.eqb Bool.eqb].
  rewrite getnum_pad2 by (Z.div_mod_to_equations; lia).
  replace ((s mod 60 <? 0) || (60 <=? s mod 60)) with false
    by (symmetry; apply orb_false_iff; split; [apply Z.ltb_ge|apply Z.leb_gt];
        Z.div_mod_to_equations; lia).
  rewrite parseFraction_formatZone, parseZone_formatZone by assumption.
  replace ((d <? 1) || (daysIn m y <? d)) with false
    by (symmetry; apply orb_false_iff; split; apply Z.ltb_ge; lia).
  assert (V : (days_from_civil y m d * secondsPerDay + s / 3600 * 3600
               + s / 60 mod 60 * 60 + s mod 60) = a).
  { rewrite Hinv. subst s. unfold secondsPerDay. Z.div_mod_to_equations; lia. }
  unfold parsedLoc, Date, Add, unixSec, sec. cbn [abs loc].
  rewrite V.
  destruct (Z.eqb_spec off 0) as [->|Hn].
  - do 2 f_equal. lia.
  - replace (a * Second + 0 + - off * Second) with ((a - off) * Second) by lia.
    rewrite Z.div_mul by (unfold Second; lia).
    destruct (Local (a - off - unixToInternal) =? off); reflexivity.
Qed.

Lemma length_pad2 u rest :
  String.length (pad2 u rest) = S (S (String.length rest)).
Proof. reflexivity. Qed.

(** The text has 20 bytes under the offset 0 and 25 under another. *)
Lemma length_formatLocal a off : in_years a -> zone_ok off ->
  String.length (formatLocal a off) = if off =? 0 then 20%nat else 25%nat.
Proof.
  intros Ha Hz.
  destruct (civil_from_days (a / secondsPerDay)) as [[y m] d] eqn:E.
  rewrite (formatLocal_eq _ _ _ _ _ Ha E).
  destruct (Z.eqb_spec off 0) as [->|Hn]; [reflexivity|].
  rewrite formatZone_eq by assumption. reflexivity.
Qed.

(** *** [Truncate] *)

(** For a positive [d], [Truncate] gives the greatest multiple of [d] since
    the zero time that is not after [t]. *)
Lemma Truncate_spec t d : 0 < d ->
  abs (Truncate t d) mod d = 0
  /\ abs (Truncate t d) <= abs t < abs (Truncate t d) + d.
Proof.
  intros Hd. unfold Truncate. destruct (Z.leb_spec d 0); [lia|]. cbn [abs].
  pose proof (Z.mod_pos_bound (abs t) d Hd).
  split; [|lia].
  rewrite Zminus_mod, Z.mod_mod, Z.sub_diag by lia. apply Z.mod_0_l. lia.
Qed.

Lemma Truncate_le t d : abs (Truncate t d) <= abs t.
Proof.
  unfold Truncate. destruct (Z.leb_spec d 0); cbn [abs]; [lia|].
  pose proof (Z.mod_pos_bound (abs t) d ltac:(lia)). lia.
Qed.

Lemma Truncate_loc t d : loc (Truncate t d) = loc t.
Proof. unfold Truncate. destruct (d <=? 0); reflexivity. Qed.

Lemma Truncate_mono t u d : abs t <= abs u ->
  abs (Truncate t d) <= abs (Truncate u d).
Proof.
  intros H. unfold Truncate. destruct (Z.leb_spec d 0); cbn [abs]; [lia|].
  rewrite !Z.mod_eq by lia.
  pose proof (Z.div_le_mono (abs t) (abs u) d ltac:(lia) H).
  nia.
Qed.

End time_facts.

(** * Facts about buckets and cursors *)

Module bolt_facts.
Import bolt bytes_facts.

Lemma key_lt_trans e1 e2 e3 : key_lt e1 e2 -> key_lt e2 e3 -> key_lt e1 e3.
Proof. unfold key_lt. apply compare_trans. Qed.

Lemma ordered_nil : ordered [].
Proof. constructor. Qed.

Lemma ordered_inv e b : ordered (e :: b) -> ordered b /\ Forall (key_lt e) b.
Proof. apply StronglySorted_inv. Qed.

Lemma insert_In b key value e :
  In e (insert b key value) -> e = (key, value) \/ In e b.
Proof.
  induction b as [|[k v] rest IH]; simpl.
  - intros [<-|[]]. now left.
  - destruct (String.compare key k); simpl.
    + intros [<-|H]; auto.
    + intros [<-|H]; auto.
    + intros [<-|H]; auto. destruct (IH H); auto.
Qed.

Lemma In_insert b key value : In (key, value) (insert b key value).
Proof.
  induction b as [|[k v] rest IH]; simpl; [now left|].
  destruct (String.compare key k); simpl; auto.
Qed.

Lemma In_insert_other b key value e :
  In e b -> fst e <> key -> In e (insert b key value).
Proof.
  induction b as [|[k v] rest IH]; simpl; [tauto|].
  intros [<-|H] Hne.
  - destruct (String.compare key k) eqn:C; simpl; auto.
    apply compare_Eq in C. simpl in Hne. congruence.
  - destruct (String.compare key k); simpl; auto.
Qed.

(** [Put] keeps the keys of a bucket in strictly ascending order. *)
Lemma insert_ordered b key value : ordered b -> ordered (insert b key value).
Proof.
  induction b as [|[k v] rest IH]; simpl; intros Hb.
  - repeat constructor.
  - apply ordered_inv in Hb as [Hrest Hall].
    destruct (String.compare key k) eqn:C.
    + apply compare_Eq in C. subst k. constructor; assumption.
    + constructor; [constructor; assumption|].
      constructor; [exact C|].
      eapply List.Forall_impl; [|exact Hall]. intros e He.
      eapply key_lt_trans; [|exact He]. exact C.
    + constructor; [apply IH; exact Hrest|].
      apply List.Forall_forall. intros e He.
      destruct (insert_In _ _ _ _ He) as [->|Hin].
      * apply compare_Gt_Lt. exact C.
      * rewrite List.Forall_forall in Hall. auto.
Qed.

Lemma entries_at_above b key e :
  Forall (key_lt e) b -> String.compare key (fst e) <> Gt ->
  entries_at b key = [].
Proof.
  intros Hall Hk. unfold entries_at.
  induction Hall as [|x l Hx Hl IH]; simpl; [reflexivity|].
  destruct (String.eqb_spec (fst x) key) as [E|_]; [|exact IH].
  exfalso. unfold key_lt in Hx. rewrite E in Hx.
  destruct (String.compare key (fst e)) eqn:C; try congruence.
  - apply compare_Eq in C. rewrite C, compare_refl in Hx. discriminate.
  - pose proof (compare_trans _ _ _ C Hx) as T.
    rewrite compare_refl in T. discriminate.
Qed.

(** After [Put], the bucket holds the key once, with the value put. *)
Lemma entries_at_insert b key value :
  ordered b -> entries_at (insert b key value) key = [(key, value)].
Proof.
  induction b as [|[k v] rest IH]; simpl; intros Hb.
  - unfold entries_at. simpl. now rewrite String.eqb_refl.
  - apply ordered_inv in Hb as [Hrest Hall].
    destruct (String.compare key k) eqn:C.
    + unfold entries_at. simpl. rewrite String.eqb_refl. f_equal.
      apply compare_Eq in C. subst k.
      apply (entries_at_above rest key (key, v) Hall).
      simpl. rewrite compare_refl. discriminate.
    + unfold entries_at. simpl. rewrite String.eqb_refl. f_equal.
      destruct (String.eqb_spec k key) as [->|_].
      * rewrite compare_refl in C. discriminate.
      * apply (entries_at_above rest key (k, v) Hall). simpl. congruence.
    + unfold entries_at. simpl.
      destruct (String.eqb_spec k key) as [->|_].
      * rewrite compare_refl in C. discriminate.
      * apply IH. exact Hrest.
Qed.

Lemma entries_at_insert_other b key value key' :
  key' <> key -> entries_at (insert b key value) key' = entries_at b key'.
Proof.
  intros Hne. unfold entries_at.
  induction b as [|[k v] rest IH]; simpl.
  - destruct (String.eqb_spec key key'); congruence.
  - destruct (String.compare key k) eqn:C; simpl.
    + apply compare_Eq in C. subst k.
      destruct (String.eqb_spec key key'); congruence.
    + destruct (String.eqb_spec key key'); congruence.
    + now rewrite IH.
Qed.

(** An ordered bucket holds each key at most once. *)
Lemma ordered_unique b key : ordered b -> (length (entries_at b key) <= 1)%nat.
Proof.
  induction b as [|[k v] rest IH]; simpl; intros Hb; [lia|].
  apply ordered_inv in Hb as [Hrest Hall]. unfold entries_at. simpl.
  destruct (String.eqb_spec k key) as [->|_]; [|now apply IH].
  fold (entries_at rest key).
  rewrite (entries_at_above rest key (key, v) Hall); [simpl; lia|].
  simpl. rewrite compare_refl. discriminate.
Qed.

Lemma Last_app_one b e : Last (b ++ [e]) = [e].
Proof.
  induction b as [|x [|y rest] IH]; simpl in *; auto.
Qed.


(** On an ordered bucket [Seek] skips exactly the keys below the one
    sought. *)
Lemma Seek_filter b seek :
  ordered b ->
  Seek b seek = List.filter (fun e => negb (String.ltb (fst e) seek)) b.
Proof.
  induction b as [|[k v] rest IH]; simpl; intros Hb; [reflexivity|].
  apply ordered_inv in Hb as [Hrest Hall].
  destruct (String.ltb k seek) eqn:L; simpl; [auto|].
  f_equal. symmetry.
  apply forallb_filter_id. apply forallb_forall. intros e He.
  rewrite List.Forall_forall in Hall. specialize (Hall e He).
  unfold key_lt in Hall. simpl in Hall.
  unfold String.ltb in *.
  destruct (String.compare (fst e) seek) eqn:C; try reflexivity.
  rewrite (compare_trans _ _ _ Hall C) in L. discriminate.
Qed.

Lemma Seek_ordered b seek : ordered b -> ordered (Seek b seek).
Proof.
  induction b as [|[k v] rest IH]; simpl; intros Hb; [constructor|].
  destruct (String.ltb k seek); [|exact Hb].
  apply IH. now apply ordered_inv in Hb.
Qed.

Lemma Put_ok b key value b' :
  Put b key value = inl b' -> b' = insert b key value /\ key <> EmptyString.
Proof.
  unfold Put. destruct key as [|c key']; simpl; [discriminate|].
  repeat match goal with |- context [if ?c then _ else _] => destruct c end;
    try discriminate.
  intros [= <-]. split; [reflexivity|discriminate].
Qed.

Lemma Put_succeeds b key value :
  (0 < String.length key)%nat ->
  Z.of_nat (String.length key) <= MaxKeySize ->
  Z.of_nat (String.length value) <= MaxValueSize ->
  Put b key value = inl (insert b key value).
Proof.
  intros H0 Hk Hv. unfold Put.
  destruct (Nat.eqb_spec (String.length key) 0); [lia|].
  destruct (Z.ltb_spec MaxKeySize (Z.of_nat (String.length key))); [lia|].
  destruct (Z.ltb_spec MaxValueSize (Z.of_nat (String.length value))); [lia|].
  reflexivity.
Qed.

End bolt_facts.

(** * The store *)

Module sensorstore_facts.
Import bytes time bolt sensorstore bytes_facts time_facts bolt_facts.

Section General.

Variable Local : Location.
Variable json_Marshal : SensorValues -> option string.
Variable json_Unmarshal : string -> option SensorValues.

Local Abbreviation StoreValues := (sensorstore.StoreValues Local json_Marshal).
Local Abbreviation ReadLastValue := (sensorstore.ReadLastValue Local json_Unmarshal).
Local Abbreviation ReadValues := (sensorstore.ReadValues Local json_Unmarshal).
Local Abbreviation convertToValues := (sensorstore.convertToValues Local json_Unmarshal).
Local Abbreviation bucketStart := (sensorstore.bucketStart Local).
Local Abbreviation storeAll := (sensorstore.storeAll Local json_Marshal).
Local Abbreviation step := (sensorstore.step Local json_Marshal).
Local Abbreviation run := (sensorstore.run Local json_Marshal).

(** What [StoreValues] does, case by case. *)
Lemma StoreValues_cases s clock commit_ok d sensorID values :
  StoreValues s clock commit_ok d sensorID values
  = match d !! rootBucket s with
    | None => Panics
    | Some root =>
        match json_Marshal values with
        | None => Returns (d, Some MarshalError)
        | Some value =>
            match root !! sensorID with
            | None => Panics
            | Some b =>
                match Put b (Format (bucketStart s clock)) value with
                | inr e => Returns (d, Some (BoltError e))
                | inl b' =>
                    if commit_ok
                    then Returns (written s d root sensorID b', None)
                    else Returns (d, Some (BoltError ErrCommit))
                end
            end
        end
    end.
Proof.
  unfold sensorstore.StoreValues, Update, sensorstore.bucketStart, written.
  destruct (d !! rootBucket s) as [root|]; [|reflexivity].
  destruct (json_Marshal values) as [value|]; [|reflexivity].
  destruct (root !! sensorID) as [b|]; [|reflexivity].
  destruct (Put b _ value); reflexivity.
Qed.

Lemma sensor_bucket_written s d root sensorID b :
  sensor_bucket s (written s d root sensorID b) sensorID = Some b.
Proof.
  unfold sensor_bucket, written. rewrite lookup_insert_eq.
  apply lookup_insert_eq.
Qed.

Lemma sensor_bucket_Some s d sensorID b :
  sensor_bucket s d sensorID = Some b <->
  exists root, d !! rootBucket s = Some root /\ root !! sensorID = Some b.
Proof.
  unfold sensor_bucket. destruct (d !! rootBucket s) as [root|].
  - split; [eauto|]. intros (r & [= <-] & H). exact H.
  - split; [discriminate|]. intros (r & H & _). discriminate.
Qed.

(** A call that returns without an error has put the encoded values under
    the text of the bucket start. *)
Lemma StoreValues_ok s clock commit_ok d sensorID values d' :
  StoreValues s clock commit_ok d sensorID values = Returns (d', None) ->
  exists b value,
    sensor_bucket s d sensorID = Some b
    /\ json_Marshal values = Some value
    /\ Put b (Format (bucketStart s clock)) value
       = inl (insert b (Format (bucketStart s clock)) value)
    /\ commit_ok = true
    /\ sensor_bucket s d' sensorID
       = Some (insert b (Format (bucketStart s clock)) value).
Proof.
  rewrite StoreValues_cases. unfold sensor_bucket at 1.
  destruct (d !! rootBucket s) as [root|]; [|discriminate].
  destruct (json_Marshal values) as [value|]; [|discriminate].
  destruct (root !! sensorID) as [b|]; [|discriminate].
  destruct (Put b _ value) as [b'|e] eqn:P; [|discriminate].
  destruct commit_ok; [|discriminate].
  intros [= <-]. destruct (Put_ok _ _ _ _ P) as [-> _].
  exists b, value. rewrite sensor_bucket_written. auto.
Qed.

(** A call that returns an error leaves the database as it was. *)
Lemma StoreValues_err s clock commit_ok d sensorID values d' e :
  StoreValues s clock commit_ok d sensorID values = Returns (d', Some e) ->
  d' = d.
Proof.
  rewrite StoreValues_cases.
  destruct (d !! rootBucket s) as [root|]; [|discriminate].
  destruct (json_Marshal values) as [value|]; [|congruence].
  destruct (root !! sensorID) as [b|]; [|discriminate].
  destruct (Put b _ value) as [b'|e']; [|congruence].
  destruct commit_ok; congruence.
Qed.

(** On a provisioned sensor a call returns, and the sensor stays
    provisioned, its bucket in key order. *)
Lemma StoreValues_provisioned s clock commit_ok d sensorID values b :
  sensor_bucket s d sensorID = Some b ->
  exists d' err b',
    StoreValues s clock commit_ok d sensorID values = Returns (d', err)
    /\ sensor_bucket s d' sensorID = Some b'
    /\ (ordered b -> ordered b')
    /\ (b' = b \/ exists value, b' = insert b (Format (bucketStart s clock)) value).
Proof.
  intros Hb. rewrite StoreValues_cases.
  apply sensor_bucket_Some in Hb as (root & Hr & Hs). rewrite Hr, Hs.
  assert (Hb : sensor_bucket s d sensorID = Some b)
    by (apply sensor_bucket_Some; eauto).
  destruct (json_Marshal values) as [value|]; [|eauto 10].
  destruct (Put b _ value) as [b'|e] eqn:P; [|eauto 10].
  destruct (Put_ok _ _ _ _ P) as [-> _].
  destruct commit_ok; [|eauto 10].
  eexists _, _, _. split; [reflexivity|]. rewrite sensor_bucket_written.
  split; [reflexivity|]. split; [apply insert_ordered|]. right. eauto.
Qed.

Lemma storeAll_provisioned s sensorID ms : forall d b,
  sensor_bucket s d sensorID = Some b -> ordered b ->
  exists b', sensor_bucket s (storeAll s sensorID ms d) sensorID = Some b'
             /\ ordered b'.
Proof.
  induction ms as [|m ms IH]; intros d b Hb Ho; simpl; [eauto|].
  destruct (StoreValues_provisioned s (rcv_clock m) (rcv_commit m) d sensorID
              (rcv_values m) b Hb) as (d' & err & b' & -> & Hb' & Ho' & _).
  eapply IH; eauto.
Qed.


Lemma storeAll_app s sensorID ms1 : forall ms2 d b,
  sensor_bucket s d sensorID = Some b ->
  storeAll s sensorID (ms1 ++ ms2) d
  = storeAll s sensorID ms2 (storeAll s sensorID ms1 d).
Proof.
  induction ms1 as [|m ms1 IH]; intros ms2 d b Hb; simpl; [reflexivity|].
  destruct (StoreValues_provisioned s (rcv_clock m) (rcv_commit m) d sensorID
              (rcv_values m) b Hb) as (d' & err & b' & -> & Hb' & _).
  eapply IH; eauto.
Qed.

Lemma storeAll_still_provisioned s sensorID ms : forall d b,
  sensor_bucket s d sensorID = Some b ->
  exists b', sensor_bucket s (storeAll s sensorID ms d) sensorID = Some b'.
Proof.
  induction ms as [|m ms IH]; intros d b Hb; simpl; [eauto|].
  destruct (StoreValues_provisioned s (rcv_clock m) (rcv_commit m) d sensorID
              (rcv_values m) b Hb) as (d' & err & b' & -> & Hb' & _).
  eapply IH; eauto.
Qed.

(** The routine receives the values sent in order and calls [StoreValues]
    on each. *)
Lemma run_consumes s sensorID pre : forall rest cl d b,
  sensor_bucket s d sensorID = Some b ->
  run s sensorID (length pre) (mkRoutine Running (mkChan (pre ++ rest) cl) d)
  = mkRoutine Running (mkChan rest cl) (storeAll s sensorID pre d).
Proof.
  induction pre as [|m pre IH]; intros rest cl d b Hb; [reflexivity|].
  cbn [length run app storeAll]. unfold sensorstore.step. cbn [status chan sent db closed].
  destruct (StoreValues_provisioned s (rcv_clock m) (rcv_commit m) d sensorID
              (rcv_values m) b Hb) as (d' & err & b' & -> & Hb' & _).
  eapply IH; eauto.
Qed.

Lemma run_add s sensorID n : forall k r,
  run s sensorID (n + k) r = run s sensorID k (run s sensorID n r)
  \/ (exists j, (j < n)%nat /\ step s sensorID (run s sensorID j r) = None).
Proof.
  induction n as [|n IH]; intros k r; [now left|].
  cbn [Nat.add run].
  destruct (step s sensorID r) as [r'|] eqn:E.
  - destruct (IH k r') as [->|(j & Hj & Hs)]; [now left|].
    right. exists (S j). split; [lia|]. cbn [run]. now rewrite E.
  - right. exists 0%nat. split; [lia|exact E].
Qed.

Lemma run_S s sensorID n r :
  run s sensorID (S n) r
  = match step s sensorID r with
    | Some r' => run s sensorID n r'
    | None => r
    end.
Proof. reflexivity. Qed.

Lemma run_stuck s sensorID r : step s sensorID r = None ->
  forall n, run s sensorID n r = r.
Proof. intros H [|n]; simpl; [|rewrite H]; reflexivity. Qed.

Lemma step_open s sensorID r r' :
  closed (chan r) = false -> status r <> Stopped ->
  step s sensorID r = Some r' ->
  closed (chan r') = false /\ status r' <> Stopped.
Proof.
  unfold sensorstore.step. intros Hc Hs.
  destruct (status r); try discriminate.
  destruct (sent (chan r)) as [|m rest].
  - rewrite Hc. discriminate.
  - destruct (StoreValues _ _ _ _ _) as [|[d' err]]; intros [= <-]; auto.
Qed.

Lemma run_open s sensorID n : forall r,
  closed (chan r) = false -> status r <> Stopped ->
  status (run s sensorID n r) <> Stopped.
Proof.
  induction n as [|n IH]; intros r Hc Hs; [exact Hs|].
  cbn [run]. destruct (step s sensorID r) as [r'|] eqn:E; [|exact Hs].
  destruct (step_open _ _ _ _ Hc Hs E). now apply IH.
Qed.

(** C1 (the code departs from the claim): on a sensor whose namespace
    exists and holds no entry, [ReadLastValue] hands the nil key of
    [Cursor.Last] to [convertToValues], where [time.Parse] rejects the
    empty text: the result is nil and the error is that parse error, not
    nil. *)
Theorem ReadLastValue_empty_namespace s d sensorID :
  sensor_bucket s d sensorID = Some [] ->
  ReadLastValue s d sensorID = Returns (None, Some (ParseError EmptyString)).
Proof.
  intros Hb. apply sensor_bucket_Some in Hb as (root & Hr & Hs).
  unfold sensorstore.ReadLastValue, View. rewrite Hr, Hs. reflexivity.
Qed.

(** C10: for a sensor whose namespace was never created, under an existing
    root bucket, both queries take the cursor of a nil bucket and panic;
    neither returns. *)
Theorem queries_panic_without_namespace s d sensorID root :
  d !! rootBucket s = Some root ->
  root !! sensorID = None ->
  ReadLastValue s d sensorID = Panics
  /\ forall clock duration, ReadValues s clock d sensorID duration = Panics.
Proof.
  intros Hr Hs. unfold sensorstore.ReadLastValue, sensorstore.ReadValues, View.
  rewrite Hr, Hs. split; reflexivity.
Qed.

(** C4 (amended): on a provisioned sensor [StoreValues] returns the
    encoder's error exactly when the encoding fails, returns an error of
    the engine exactly when the encoding succeeds and the write transaction
    fails (the [Put] is refused or the commit fails), and never panics;
    when the sensor's namespace is missing it returns the encoder's error
    if the encoding fails and panics otherwise. *)
Theorem StoreValues_failures s clock commit_ok d sensorID values root :
  d !! rootBucket s = Some root ->
  let r := StoreValues s clock commit_ok d sensorID values in
  let key := Format (bucketStart s clock) in
  (forall b, root !! sensorID = Some b ->
     (r = Returns (d, Some MarshalError) <-> json_Marshal values = None)
     /\ ((exists e, r = Returns (d, Some (BoltError e))) <->
         (exists value, json_Marshal values = Some value
            /\ ((exists e, Put b key value = inr e) \/ commit_ok = false)))
     /\ r <> Panics)
  /\ (root !! sensorID = None ->
      (json_Marshal values = None -> r = Returns (d, Some MarshalError))
      /\ (json_Marshal values <> None -> r = Panics)).
Proof.
  intros Hr r key. subst r key. rewrite StoreValues_cases, Hr. split.
  - intros b Hs. rewrite Hs.
    destruct (json_Marshal values) as [value|].
    + destruct (Put b _ value) as [b'|e] eqn:P.
      * destruct commit_ok.
        -- repeat split; try discriminate.
           ++ intros [e ?]; discriminate.
           ++ intros (v & [= <-] & [[e He]|?]); congruence.
        -- repeat split; try discriminate; eauto 6.
      * repeat split; try discriminate; eauto 6.
    + repeat split; try discriminate; auto.
      * intros [e ?]; discriminate.
      * intros (v & ? & _); discriminate.
  - intros Hs. rewrite Hs. destruct (json_Marshal values); split; congruence.
Qed.

(** C2 (amended): a call that stores puts the encoded values under the
    RFC 3339 text, to the second and in the location of the clock reading
    (the process's local zone), of the reading truncated to the resolution:
    the greatest multiple of a positive resolution, counted from the zero
    time, that is not after the reading. That text is the UTC one whenever
    the local offset at the truncated time is zero. *)
Theorem StoreValues_key s clock commit_ok d sensorID values d' :
  StoreValues s clock commit_ok d sensorID values = Returns (d', None) ->
  let start := bucketStart s clock in
  exists b b' value,
    sensor_bucket s d sensorID = Some b
    /\ json_Marshal values = Some value
    /\ sensor_bucket s d' sensorID = Some b'
    /\ In (Format start, value) b'
    /\ (forall e, In e b' -> e = (Format start, value) \/ In e b)
    /\ Format start = formatLocal (sec start + Local (unixSec start))
                                  (Local (unixSec start))
    /\ (0 < resolution s ->
        abs start mod resolution s = 0
        /\ abs start <= clock < abs start + resolution s)
    /\ (Local (unixSec start) = 0 ->
        Format start = Format (mkTime (abs start) UTC)).
Proof.
  intros H start.
  destruct (StoreValues_ok _ _ _ _ _ _ _ H) as (b & value & Hb & Hm & _ & _ & Hb').
  exists b, (insert b (Format start) value), value.
  assert (Hloc : loc start = Local)
    by (unfold start, sensorstore.bucketStart; now rewrite Truncate_loc).
  repeat split; try assumption.
  - apply In_insert.
  - apply insert_In.
  - unfold Format, offset. now rewrite Hloc.
  - now apply (Truncate_spec (Now Local clock) (resolution s)).
  - apply (Truncate_spec (Now Local clock) (resolution s)). assumption.
  - apply (Truncate_spec (Now Local clock) (resolution s)). assumption.
  - intros H0. unfold Format, offset. rewrite Hloc. cbn [loc].
    rewrite H0. reflexivity.
Qed.



(** C7: on a provisioned sensor whose bucket is in key order, as the
    engine keeps it, any sequence of [StoreValues] calls leaves the bucket
    with at most one entry under the text of any timestamp; and two calls
    that store, the second in the resolution window of the first, leave
    under that window's key exactly one entry, the encoding of the second
    call's values, the second call adding no entry to the bucket. *)
Theorem one_entry_per_window s d sensorID b :
  sensor_bucket s d sensorID = Some b ->
  ordered b ->
  (forall ms, exists b',
      sensor_bucket s (storeAll s sensorID ms d) sensorID = Some b'
      /\ forall t : Time, (length (entries_at b' (Format t)) <= 1)%nat)
  /\ (forall clock1 clock2 ok1 ok2 values1 values2 d1 d2,
        abs (bucketStart s clock1) = abs (bucketStart s clock2) ->
        StoreValues s clock1 ok1 d sensorID values1 = Returns (d1, None) ->
        StoreValues s clock2 ok2 d1 sensorID values2 = Returns (d2, None) ->
        exists b1 b2 value2,
          sensor_bucket s d1 sensorID = Some b1
          /\ sensor_bucket s d2 sensorID = Some b2
          /\ json_Marshal values2 = Some value2
          /\ entries_at b2 (Format (bucketStart s clock2))
             = [(Format (bucketStart s clock2), value2)]
          /\ length b2 = length b1).
Proof.
  intros Hb Ho. split.
  - intros ms. destruct (storeAll_provisioned s sensorID ms d b Hb Ho) as (b' & Hb' & Ho').
    exists b'. split; [exact Hb'|]. intros t. now apply ordered_unique.
  - intros clock1 clock2 ok1 ok2 values1 values2 d1 d2 Hw H1 H2.
    destruct (StoreValues_ok _ _ _ _ _ _ _ H1) as (b0 & value1 & Hb0 & Hm1 & _ & _ & Hb1).
    rewrite Hb in Hb0. injection Hb0 as <-.
    destruct (StoreValues_ok _ _ _ _ _ _ _ H2) as (b1 & value2 & Hb1' & Hm2 & _ & _ & Hb2).
    rewrite Hb1 in Hb1'. injection Hb1' as <-.
    assert (Hk : Format (bucketStart s clock1) = Format (bucketStart s clock2)).
    { unfold Format, offset, sec, unixSec, sec, sensorstore.bucketStart in *.
      rewrite !Truncate_loc. cbn [loc Now]. now rewrite Hw. }
    exists (insert b (Format (bucketStart s clock1)) value1),
      (insert (insert b (Format (bucketStart s clock1)) value1)
         (Format (bucketStart s clock2)) value2), value2.
    repeat split; try assumption.
    + apply entries_at_insert. now apply insert_ordered.
    + rewrite Hk. clear. set (k := Format _). generalize value1 value2.
      induction b as [|[k' v'] rest IH]; intros v1 v2; simpl.
      * now rewrite compare_refl.
      * destruct (String.compare k k') eqn:C; simpl.
        -- now rewrite compare_refl.
        -- now rewrite compare_refl.
        -- rewrite C. simpl. f_equal. apply IH.
Qed.

(** C8: when a [StoreValues] call of the writer routine returns an error,
    on a provisioned sensor, the routine goes on running with the database
    unchanged; it then receives every value sent after the failed one, in
    order, and calls [StoreValues] on each, so that once all are received
    the database is the one those calls leave. *)
Theorem writer_continues_after_failed_write s sensorID d b m rest cl d' e :
  sensor_bucket s d sensorID = Some b ->
  StoreValues s (rcv_clock m) (rcv_commit m) d sensorID (rcv_values m)
  = Returns (d', Some e) ->
  let r0 := mkRoutine Running (mkChan (m :: rest) cl) d in
  step s sensorID r0 = Some (mkRoutine Running (mkChan rest cl) d)
  /\ (forall pre m' post, rest = pre ++ m' :: post ->
      exists err,
        run s sensorID (S (length pre)) r0
        = mkRoutine Running (mkChan (m' :: post) cl) (storeAll s sensorID pre d)
        /\ StoreValues s (rcv_clock m') (rcv_commit m')
             (storeAll s sensorID pre d) sensorID (rcv_values m')
           = Returns (storeAll s sensorID (pre ++ [m']) d, err)
        /\ run s sensorID (S (S (length pre))) r0
           = mkRoutine Running (mkChan post cl)
               (storeAll s sensorID (pre ++ [m']) d))
  /\ run s sensorID (S (length rest)) r0
     = mkRoutine Running (mkChan [] cl) (storeAll s sensorID rest d).
Proof.
  intros Hb H r0.
  pose proof (StoreValues_err _ _ _ _ _ _ _ _ H) as ->.
  assert (S0 : step s sensorID r0 = Some (mkRoutine Running (mkChan rest cl) d)).
  { unfold sensorstore.step, r0. cbn [status chan sent db closed]. now rewrite H. }
  split; [exact S0|]. split.
  - intros pre m' post ->.
    destruct (storeAll_still_provisioned s sensorID pre d b Hb) as (b1 & Hb1).
    destruct (StoreValues_provisioned s (rcv_clock m') (rcv_commit m')
                (storeAll s sensorID pre d) sensorID (rcv_values m') b1 Hb1)
      as (d2 & err & b2 & Hcall & _).
    assert (E2 : storeAll s sensorID (pre ++ [m']) d = d2).
    { rewrite (storeAll_app s sensorID pre [m'] d b Hb). cbn [storeAll sensorstore.storeAll].
      now rewrite Hcall. }
    exists err. rewrite E2.
    assert (R1 : run s sensorID (S (length pre)) r0
                 = mkRoutine Running (mkChan (m' :: post) cl)
                     (storeAll s sensorID pre d)).
    { rewrite run_S, S0.
      apply (run_consumes s sensorID pre (m' :: post) cl d b Hb). }
    split; [exact R1|]. split; [exact Hcall|].
    rewrite run_S, S0.
    replace (S (length pre)) with (length (pre ++ [m'])) by (rewrite length_app; simpl; lia).
    replace (pre ++ m' :: post) with ((pre ++ [m']) ++ post) by (now rewrite <- app_assoc).
    rewrite (run_consumes s sensorID (pre ++ [m']) post cl d b Hb). now rewrite E2.
  - rewrite run_S, S0.
    rewrite <- (app_nil_r rest) at 2.
    apply (run_consumes s sensorID rest [] cl d b Hb).
Qed.

(** C9: with the values [ms] sent and the channel then closed, the routine
    on a provisioned sensor receives all of [ms], calling [StoreValues] on
    each in order, and only then observes the closure and stops; once
    stopped it makes no further move, so the database stays as those calls
    left it; and as long as the channel is open it never stops. *)
Theorem writer_stops_on_close s sensorID d b ms :
  sensor_bucket s d sensorID = Some b ->
  let r0 := mkRoutine Running (mkChan ms true) d in
  let r1 := mkRoutine Stopped (mkChan [] true) (storeAll s sensorID ms d) in
  run s sensorID (S (length ms)) r0 = r1
  /\ run s sensorID (length ms) r0
     = mkRoutine Running (mkChan [] true) (storeAll s sensorID ms d)
  /\ (forall pre m post, ms = pre ++ m :: post ->
      exists err,
        StoreValues s (rcv_clock m) (rcv_commit m) (storeAll s sensorID pre d)
          sensorID (rcv_values m)
        = Returns (storeAll s sensorID (pre ++ [m]) d, err)
        /\ run s sensorID (S (length pre)) r0
           = mkRoutine Running (mkChan post true)
               (storeAll s sensorID (pre ++ [m]) d))
  /\ step s sensorID r1 = None
  /\ (forall n, run s sensorID n r1 = r1)
  /\ (forall n ms' d0,
        status (run s sensorID n (mkRoutine Running (mkChan ms' false) d0))
        <> Stopped).
Proof.
  intros Hb r0 r1.
  assert (R : run s sensorID (length ms) r0
              = mkRoutine Running (mkChan [] true) (storeAll s sensorID ms d)).
  { unfold r0. rewrite <- (app_nil_r ms) at 2.
    apply (run_consumes s sensorID ms [] true d b Hb). }
  repeat split.
  - replace (S (length ms)) with (length ms + 1)%nat by lia.
    destruct (run_add s sensorID (length ms) 1 r0) as [->|(j & Hj & Hs)].
    + rewrite R. reflexivity.
    + exfalso. revert Hs. unfold r0.
      rewrite <- (firstn_skipn j ms) at 1.
      assert (Hlen : length (firstn j ms) = j) by (apply firstn_length_le; lia).
      rewrite <- Hlen at 1.
      rewrite (run_consumes s sensorID (firstn j ms) (skipn j ms) true d b Hb).
      destruct (storeAll_still_provisioned s sensorID (firstn j ms) d b Hb) as (b1 & Hb1).
      unfold sensorstore.step. cbn [status chan sent db closed].
      destruct (skipn j ms) as [|m post] eqn:Esk; [discriminate|].
      destruct (StoreValues_provisioned s (rcv_clock m) (rcv_commit m) _ sensorID
                  (rcv_values m) b1 Hb1) as (d2 & err & b2 & -> & _). discriminate.
  - exact R.
  - intros pre m post ->.
    destruct (storeAll_still_provisioned s sensorID pre d b Hb) as (b1 & Hb1).
    destruct (StoreValues_provisioned s (rcv_clock m) (rcv_commit m)
                (storeAll s sensorID pre d) sensorID (rcv_values m) b1 Hb1)
      as (d2 & err & b2 & Hcall & _).
    assert (E2 : storeAll s sensorID (pre ++ [m]) d = d2).
    { rewrite (storeAll_app s sensorID pre [m] d b Hb). cbn [storeAll sensorstore.storeAll].
      now rewrite Hcall. }
    exists err. rewrite E2. split; [exact Hcall|].
    replace (S (length pre)) with (length (pre ++ [m])) by (rewrite length_app; simpl; lia).
    unfold r0.
    replace (pre ++ m :: post) with ((pre ++ [m]) ++ post) by (now rewrite <- app_assoc).
    rewrite (run_consumes s sensorID (pre ++ [m]) post true d b Hb). now rewrite E2.
  - apply run_stuck. reflexivity.
  - intros n ms' d0. apply run_open; [reflexivity|discriminate].
Qed.
End General.

(** ** A local zone with one offset

    When the process's zone keeps one offset of whole minutes, the byte
    order of the keys is the order of the instants they denote. *)

Section FixedOffset.

Variable off : Z.
Hypothesis off_ok : zone_ok off.
Variable json_Marshal : SensorValues -> option string.
Variable json_Unmarshal : string -> option SensorValues.

Local Abbreviation Local := (FixedZone off).
Local Abbreviation StoreValues := (sensorstore.StoreValues Local json_Marshal).
Local Abbreviation ReadValues := (sensorstore.ReadValues Local json_Unmarshal).
Local Abbreviation convertToValues := (sensorstore.convertToValues Local json_Unmarshal).
Local Abbreviation readLoop := (sensorstore.readLoop Local json_Unmarshal).
Local Abbreviation decodeAll := (sensorstore.decodeAll Local json_Unmarshal).
Local Abbreviation bucketStart := (sensorstore.bucketStart Local).
Local Abbreviation windowStart := (sensorstore.windowStart Local).
Local Abbreviation storeAll := (sensorstore.storeAll Local json_Marshal).
Local Abbreviation in_window := (sensorstore.in_window Local).
Local Abbreviation not_after := (sensorstore.not_after Local).

Lemma canonical_Parse k a :
  in_years a -> k = formatLocal a off ->
  exists l, time_Parse Local k = Some (mkTime ((a - off) * Second) l).
Proof.
  intros Ha ->. unfold time_Parse. rewrite Parse_formatLocal by assumption. eauto.
Qed.

Lemma canonical_nonempty k : canonical off k -> (String.length k =? 0)%nat = false.
Proof.
  intros (a & Ha & ->). rewrite length_formatLocal by assumption.
  destruct (off =? 0); reflexivity.
Qed.

Lemma canonical_lt a1 a2 :
  in_years a1 -> in_years a2 ->
  String.compare (formatLocal a1 off) (formatLocal a2 off) = Lt <-> a1 < a2.
Proof.
  intros H1 H2. rewrite formatLocal_compare by assumption.
  apply Z.compare_lt_iff.
Qed.

Lemma canonical_bucket_inv e b :
  canonical_bucket off (e :: b) ->
  canonical off (fst e) /\ canonical_bucket off b /\ Forall (key_lt e) b.
Proof.
  intros [Ho Hc]. apply ordered_inv in Ho as [Ho Hall].
  apply List.Forall_cons_iff in Hc as [He Hc]. repeat split; assumption.
Qed.

Lemma canonical_bucket_filter p b :
  canonical_bucket off b -> canonical_bucket off (List.filter p b).
Proof.
  induction b as [|e b IH]; intros H; [exact H|].
  apply canonical_bucket_inv in H as (He & Hb & Hall). simpl.
  specialize (IH Hb). destruct (p e); [|exact IH].
  destruct IH as [Ho Hc]. split.
  - constructor; [exact Ho|]. apply List.Forall_forall. intros x Hx.
    apply filter_In in Hx as [Hx _]. rewrite List.Forall_forall in Hall. auto.
  - constructor; assumption.
Qed.

(** Later keys of a canonical bucket denote later instants. *)
Lemma later_keys_later e b x t :
  canonical_bucket off (e :: b) -> In x b ->
  time_Parse Local (fst e) = Some t ->
  exists u, time_Parse Local (fst x) = Some u /\ abs t < abs u.
Proof.
  intros H Hx Ht. apply canonical_bucket_inv in H as (He & [_ Hc] & Hall).
  rewrite List.Forall_forall in Hc, Hall.
  destruct He as (a & Ha & Hk). destruct (Hc x Hx) as (a' & Ha' & Hk').
  specialize (Hall x Hx). unfold key_lt in Hall. rewrite Hk, Hk' in Hall.
  apply canonical_lt in Hall; try assumption.
  destruct (canonical_Parse _ _ Ha Hk) as [l E]. rewrite E in Ht. injection Ht as <-.
  destruct (canonical_Parse _ _ Ha' Hk') as [l' E']. exists (mkTime ((a' - off) * Second) l').
  split; [exact E'|]. cbn [abs]. unfold Second. lia.
Qed.

Lemma filter_none {A} (p : A -> bool) l :
  (forall x, In x l -> p x = false) -> List.filter p l = [].
Proof.
  induction l as [|x l IH]; intros H; [reflexivity|]. simpl.
  rewrite (H x (or_introl eq_refl)). apply IH. intros y Hy. apply H. now right.
Qed.

(** The loop of [ReadValues] decodes, in order, the pairs under the cursor
    that are not after the end of the window. *)
Lemma readLoop_decodes endTime l : forall acc,
  canonical_bucket off l ->
  readLoop endTime l acc
  = decodeAll (List.filter (not_after (abs endTime)) l) acc.
Proof.
  induction l as [|[k v] rest IH]; intros acc H; [reflexivity|].
  pose proof (canonical_bucket_inv _ _ H) as (Hk & Hrest & Hall).
  cbn [sensorstore.readLoop List.filter]. cbn [fst] in Hk.
  rewrite (canonical_nonempty k Hk).
  destruct Hk as (a & Ha & Hk).
  destruct (canonical_Parse _ _ Ha Hk) as [l E].
  unfold sensorstore.not_after at 1. cbn [fst]. rewrite E. unfold After. cbn [abs].
  destruct (Z.ltb_spec (abs endTime) ((a - off) * Second)) as [Hafter|Hin].
  - destruct (Z.leb_spec ((a - off) * Second) (abs endTime)); [lia|].
    rewrite (filter_none (not_after (abs endTime)) rest); [reflexivity|].
    intros x Hx.
    destruct (later_keys_later (k, v) rest x _ H Hx E) as (u & Eu & Hu).
    unfold sensorstore.not_after. rewrite Eu. cbn [abs] in Hu.
    apply Z.leb_gt. lia.
  - destruct (Z.leb_spec ((a - off) * Second) (abs endTime)); [|lia].
    cbn [sensorstore.decodeAll].
    destruct (convertToValues k v) as [tv|e]; [|reflexivity].
    apply IH. exact Hrest.
Qed.

Lemma filter_filter_and {A} (p q : A -> bool) l :
  List.filter p (List.filter q l) = List.filter (fun x => q x && p x) l.
Proof.
  induction l as [|x l IH]; [reflexivity|]. simpl.
  destruct (q x); simpl; [destruct (p x)|]; now rewrite IH.
Qed.

Lemma offset_fixed t d : loc t = Local -> offset (Truncate t d) = off.
Proof. intros H. unfold offset. now rewrite Truncate_loc, H. Qed.

Lemma Format_windowStart s clock duration :
  Format (windowStart s clock duration)
  = formatLocal (localSeconds (windowStart s clock duration)) off.
Proof.
  unfold Format, localSeconds, sensorstore.windowStart.
  destruct (0 <? duration); now rewrite offset_fixed.
Qed.

Lemma Format_bucketStart s clock :
  Format (bucketStart s clock)
  = formatLocal (localSeconds (bucketStart s clock)) off.
Proof.
  unfold Format, localSeconds, sensorstore.bucketStart. now rewrite offset_fixed.
Qed.

(** C3 (amended): under a local zone of one offset of whole minutes, on a
    bucket in key order whose keys are texts that [StoreValues] writes
    under that offset, and for a window start in the years 1 to 9999,
    [ReadValues] returns the entries whose key denotes an instant [t] with
    [start <= t <= end], decoded in key order up to the first that does not
    decode, and no other entry. Here [end] is the clock reading truncated
    to the resolution and [start] is the reading less the duration, or plus
    a duration that is not positive, truncated to the resolution and then
    to the second (nothing for a positive resolution of whole seconds). *)
Theorem ReadValues_window s clock d sensorID duration b :
  sensor_bucket s d sensorID = Some b ->
  canonical_bucket off b ->
  in_years (localSeconds (windowStart s clock duration)) ->
  let start := windowStart s clock duration in
  ReadValues s clock d sensorID duration
  = Returns (decodeAll
               (List.filter (in_window (sec start * Second)
                               (abs (bucketStart s clock))) b) [])
  /\ (0 < resolution s -> resolution s mod Second = 0 ->
      sec start * Second = abs start).
Proof.
  intros Hb Hc Hy start. split.
  - apply sensor_bucket_Some in Hb as (root & Hr & Hs).
    unfold sensorstore.ReadValues, View. rewrite Hr, Hs. f_equal.
    replace (if 0 <? duration
             then Format (Truncate (Add (Now Local clock) (- duration)) (resolution s))
             else Format (Truncate (Add (Now Local clock) duration) (resolution s)))
      with (Format start)
      by (unfold start, sensorstore.windowStart; destruct (0 <? duration); reflexivity).
    rewrite Seek_filter by apply Hc.
    rewrite readLoop_decodes by (now apply canonical_bucket_filter).
    rewrite filter_filter_and. f_equal.
    apply List.filter_ext_in. intros [k v] Hin.
    destruct Hc as [_ Hc]. rewrite List.Forall_forall in Hc.
    destruct (Hc _ Hin) as (a & Ha & Hk). cbn [fst] in *.
    unfold sensorstore.not_after, sensorstore.in_window. cbn [fst].
    destruct (canonical_Parse _ _ Ha Hk) as [l ->]. cbn [abs].
    fold (bucketStart s clock). f_equal.
    unfold start. rewrite Format_windowStart, Hk. unfold String.ltb.
    rewrite formatLocal_compare by assumption.
    fold start. unfold localSeconds.
    replace (offset start) with off
      by (unfold start, sensorstore.windowStart; destruct (0 <? duration);
          now rewrite offset_fixed).
    destruct (Z.compare_spec a (sec start + off)),
      (Z.leb_spec (sec start * Second) ((a - off) * Second));
      try reflexivity; unfold Second in *; lia.
  - intros Hpos Hmod. unfold start, sensorstore.windowStart, sec.
    destruct (0 <? duration);
      match goal with |- context [Truncate ?t ?r] =>
        destruct (Truncate_spec t r Hpos) as [Hm _];
        set (x := abs (Truncate t r)) in *
      end; unfold Second in *; Z.div_mod_to_equations; nia.
Qed.

Lemma StoreValues_canonical s clock commit_ok d sensorID values b d' err :
  sensor_bucket s d sensorID = Some b ->
  canonical_bucket off b ->
  in_years (localSeconds (bucketStart s clock)) ->
  StoreValues s clock commit_ok d sensorID values = Returns (d', err) ->
  exists b', sensor_bucket s d' sensorID = Some b' /\ canonical_bucket off b'.
Proof.
  intros Hb [Ho Hc] Hy H.
  destruct (StoreValues_provisioned Local json_Marshal s clock commit_ok d
              sensorID values b Hb) as (d2 & err2 & b' & H2 & Hb' & Ho' & Hcase).
  rewrite H in H2. injection H2 as <- <-.
  exists b'. split; [exact Hb'|]. split; [auto|].
  destruct Hcase as [->|[value ->]]; [exact Hc|].
  apply List.Forall_forall. intros e He.
  destruct (insert_In _ _ _ _ He) as [->|Hin].
  - cbn [fst]. exists (localSeconds (bucketStart s clock)).
    split; [exact Hy|apply Format_bucketStart].
  - rewrite List.Forall_forall in Hc. auto.
Qed.

Lemma storeAll_canonical s sensorID ms : forall d b,
  sensor_bucket s d sensorID = Some b ->
  canonical_bucket off b ->
  Forall (fun m => in_years (localSeconds (bucketStart s (rcv_clock m)))) ms ->
  exists b', sensor_bucket s (storeAll s sensorID ms d) sensorID = Some b'
             /\ canonical_bucket off b'.
Proof.
  induction ms as [|m ms IH]; intros d b Hb Hc Hy; [simpl; eauto|].
  apply List.Forall_cons_iff in Hy as [Hm Hy]. cbn [sensorstore.storeAll].
  destruct (StoreValues s (rcv_clock m) (rcv_commit m) d sensorID (rcv_values m))
    as [|[d' err]] eqn:E.
  - destruct (StoreValues_provisioned Local json_Marshal s (rcv_clock m)
                (rcv_commit m) d sensorID (rcv_values m) b Hb)
      as (d2 & err2 & b' & H2 & _).
    rewrite E in H2. discriminate.
  - destruct (StoreValues_canonical _ _ _ _ _ _ _ _ _ Hb Hc Hm E) as (b' & Hb' & Hc').
    eapply IH; eauto.
Qed.

Lemma StronglySorted_snoc {A} (R : A -> A -> Prop) l x :
  StronglySorted R l -> (forall y, In y l -> R y x) ->
  StronglySorted R (l ++ [x]).
Proof.
  induction l as [|y l IH]; intros Hs Hx; simpl.
  - repeat constructor.
  - apply StronglySorted_inv in Hs as [Hs Hy]. constructor.
    + apply IH; [exact Hs|]. intros z Hz. apply Hx. now right.
    + apply List.Forall_forall. intros z Hz. apply in_app_or in Hz as [Hz|[<-|[]]].
      * rewrite List.Forall_forall in Hy. auto.
      * apply Hx. now left.
Qed.

Lemma decodeAll_sorted es : forall acc vals err,
  canonical_bucket off es ->
  decodeAll es acc = (vals, err) ->
  StronglySorted earlier (map Timestamp acc) ->
  (forall x e u, In x acc -> In e es -> time_Parse Local (fst e) = Some u ->
                 abs (Timestamp x) < abs u) ->
  StronglySorted earlier (map Timestamp vals).
Proof.
  induction es as [|[k v] rest IH]; intros acc vals err Hc H Hs Hacc.
  - injection H as <- _. exact Hs.
  - pose proof (canonical_bucket_inv _ _ Hc) as (Hk & Hrest & Hall).
    cbn [sensorstore.decodeAll] in H. cbn [fst] in Hk.
    destruct Hk as (a & Ha & Hk). destruct (canonical_Parse _ _ Ha Hk) as [l E].
    unfold sensorstore.convertToValues in H. rewrite E in H.
    destruct (json_Unmarshal v) as [values|].
    + apply (IH _ _ _ Hrest H).
      * rewrite map_app. apply StronglySorted_snoc; [exact Hs|].
        intros y Hy. apply in_map_iff in Hy as (x & <- & Hx).
        apply (Hacc x (k, v) _ Hx (or_introl eq_refl) E).
      * intros x e u Hx He Hu. apply in_app_or in Hx as [Hx|[<-|[]]].
        -- apply (Hacc x e u Hx (or_intror He) Hu).
        -- cbn [Timestamp].
           destruct (later_keys_later (k, v) rest e _ Hc He E) as (u' & Hu' & Hlt).
           rewrite Hu in Hu'. injection Hu' as <-. exact Hlt.
    + injection H as <- _. exact Hs.
Qed.

(** C5 (amended): under a local zone of one offset of whole minutes, after
    any sequence of [StoreValues] calls whose bucket starts lie in the
    years 1 to 9999, on a sensor whose bucket was empty (or held, in key
    order, keys written under that offset), the timestamps of what
    [ReadValues] returns ascend strictly, so they are in non-decreasing
    order. *)
Theorem ReadValues_ascending s d sensorID b ms clock duration vals err :
  sensor_bucket s d sensorID = Some b ->
  canonical_bucket off b ->
  Forall (fun m => in_years (localSeconds (bucketStart s (rcv_clock m)))) ms ->
  ReadValues s clock (storeAll s sensorID ms d) sensorID duration
  = Returns (vals, err) ->
  StronglySorted earlier (map Timestamp vals).
Proof.
  intros Hb Hc Hy H.
  destruct (storeAll_canonical s sensorID ms d b Hb Hc Hy) as (b' & Hb' & Hc').
  apply sensor_bucket_Some in Hb' as (root & Hr & Hs).
  unfold sensorstore.ReadValues, View in H. rewrite Hr, Hs in H.
  injection H as H.
  rewrite Seek_filter in H by apply Hc'.
  rewrite readLoop_decodes in H by (now apply canonical_bucket_filter).
  apply (decodeAll_sorted _ [] vals err) in H.
  - exact H.
  - now do 2 apply canonical_bucket_filter.
  - constructor.
  - intros x e u [].
Qed.

End FixedOffset.
End sensorstore_facts.

(** * The claims on concrete runs *)

Module runs.
Import time bolt sensorstore scenario time_facts bolt_facts sensorstore_facts.

Ltac compute_eq := vm_compute; reflexivity.

Ltac in_years_now :=
  unfold in_years, maxSeconds; split; [apply Z.leb_le | apply Z.ltb_lt];
  compute_eq.

Lemma zone_ok_0 : zone_ok 0.
Proof. unfold zone_ok, secondsPerDay. split; [reflexivity | lia]. Qed.

(** [provisioned] is what [New] and [StoreValuesChannel] leave of an empty
    database. *)
Example provisioned_by_New :
  New true ∅ (10 * Minute) = Returns (unprovisioned, (Some store, None))
  /\ StoreValuesChannel store true unprovisioned sensorID
     = Returns (provisioned, None).
Proof. split; compute_eq. Qed.

(** The scenario of the specification, under UTC: the write at 10:03:00 is
    keyed by 10:00:00, the write at 10:07:00 overwrites it, and
    [ReadLastValue] returns 10:00:00 with the second values. *)
Example scenario_of_the_specification :
  sensor_bucket store after_u1 sensorID
  = Some [("2024-01-02T10:00:00Z"%string, text1)]
  /\ sensor_bucket store
       (storeAll UTC json.Marshal store sensorID [u1; u2] provisioned) sensorID
     = Some [("2024-01-02T10:00:00Z"%string, text2)]
  /\ ReadLastValue UTC json.Unmarshal store
       (storeAll UTC json.Marshal store sensorID [u1; u2] provisioned) sensorID
     = Returns (Some (mkTimedSensorValues
                        (Date 2024 1 2 10 0 0 0 UTC) v2), None).
Proof. repeat split; compute_eq. Qed.

(** C1, on the empty namespace of [provisioned]. *)
Lemma ReadLastValue_empty_namespace_witness :
  sensor_bucket store provisioned sensorID = Some []
  /\ ReadLastValue UTC json.Unmarshal store provisioned sensorID
     = Returns (None, Some (ParseError EmptyString)).
Proof.
  split; [compute_eq|].
  apply (ReadLastValue_empty_namespace UTC json.Unmarshal store provisioned
           sensorID).
  compute_eq.
Defined.

(** C10, on [unprovisioned]. *)
Lemma queries_panic_without_namespace_witness :
  unprovisioned !! rootBucket store = Some no_sensor
  /\ no_sensor !! sensorID = None
  /\ ReadLastValue UTC json.Unmarshal store unprovisioned sensorID = Panics
  /\ ReadValues UTC json.Unmarshal store (clock 2024 1 2 10 3 0) unprovisioned
       sensorID (60 * Minute) = Panics.
Proof.
  split; [compute_eq|]. split; [compute_eq|].
  destruct (queries_panic_without_namespace UTC json.Unmarshal store
              unprovisioned sensorID no_sensor ltac:(compute_eq)
              ltac:(compute_eq))
    as [H1 H2].
  split; [exact H1 | apply H2].
Defined.

(** C4 as stated fails: with the namespace missing and values that encode,
    the call panics. *)
Lemma C4_counterexample :
  ~ as_stated.C4 UTC json.Marshal store (clock 2024 1 2 10 3 0) true
      unprovisioned sensorID v1.
Proof.
  intros H. destruct (H ltac:(compute_eq)) as (d' & e & E).
  vm_compute in E. discriminate E.
Qed.

(** C4, on [provisioned] and values that encode: the call never panics. *)
Lemma StoreValues_failures_witness :
  provisioned !! rootBucket store = Some empty_sensor
  /\ StoreValues UTC json.Marshal store (clock 2024 1 2 10 3 0) true provisioned
       sensorID v1 <> Panics.
Proof.
  split; [compute_eq|].
  refine (proj2 (proj2 (proj1
    (StoreValues_failures UTC json.Marshal store (clock 2024 1 2 10 3 0) true
       provisioned sensorID v1 empty_sensor _) [] _))); compute_eq.
Defined.

(** C2 as stated fails: in Berlin the write at 10:03:00 UTC is keyed by the
    local text 11:00:00+01:00, not by the UTC text 10:00:00Z. *)
Lemma C2_counterexample :
  ~ as_stated.C2 Berlin json.Marshal store (clock 2024 1 2 10 3 0) true
      provisioned sensorID v1.
Proof.
  intros H.
  destruct (H (after_v1 "2024-01-02T11:00:00+01:00") ltac:(compute_eq))
    as (b & value & Hb & Hin).
  vm_compute in Hb. injection Hb as <-.
  destruct Hin as [E|[]]. vm_compute in E. discriminate E.
Qed.

(** C2, on the scenario of the specification under UTC. *)
Lemma StoreValues_key_witness :
  StoreValues UTC json.Marshal store (clock 2024 1 2 10 3 0) true provisioned
    sensorID v1 = Returns (after_u1, None)
  /\ exists b b' value,
       sensor_bucket store provisioned sensorID = Some b
       /\ json.Marshal v1 = Some value
       /\ sensor_bucket store after_u1 sensorID = Some b'
       /\ In (Format (bucketStart UTC store (clock 2024 1 2 10 3 0)), value) b'.
Proof.
  split; [compute_eq|].
  destruct (StoreValues_key UTC json.Marshal store (clock 2024 1 2 10 3 0) true
              provisioned sensorID v1 after_u1 ltac:(compute_eq))
    as (b & b' & value & H1 & H2 & H3 & H4 & _).
  exists b, b', value. auto.
Defined.



(** C3 as stated fails: in Berlin, after the writes at 00:50 and 01:00 UTC,
    [ReadValues] at 01:05 UTC for one hour has the window from 00:00 to
    01:00 UTC, which holds both entries, and returns one: it seeks the key
    02:00:00+02:00, past the entry of 01:00 UTC, keyed 02:00:00+01:00. *)
Lemma C3_counterexample :
  ~ as_stated.C3 Berlin json.Unmarshal store (clock 2024 10 27 1 5 0)
      after_w1_w2 sensorID (60 * Minute).
Proof.
  intros H.
  specialize (H [("2024-10-27T02:00:00+01:00"%string, text2);
                 ("2024-10-27T02:50:00+02:00"%string, text1)]
                ltac:(compute_eq)).
  apply (f_equal returned) in H.
  assert (E1 : returned (ReadValues Berlin json.Unmarshal store
                           (clock 2024 10 27 1 5 0) after_w1_w2 sensorID
                           (60 * Minute)) = 1%nat) by compute_eq.
  rewrite E1 in H.
  assert (E2 : returned
                 (Returns
                    (decodeAll Berlin json.Unmarshal
                       (List.filter
                          (in_window Berlin
                             (abs (windowStart Berlin store
                                     (clock 2024 10 27 1 5 0) (60 * Minute)))
                             (abs (bucketStart Berlin store
                                     (clock 2024 10 27 1 5 0))))
                          [("2024-10-27T02:00:00+01:00"%string, text2);
                           ("2024-10-27T02:50:00+02:00"%string, text1)]) []))
               = 2%nat) by compute_eq.
  rewrite E2 in H. discriminate H.
Qed.

(** C3, on the two entries that [u1] and [u3] leave under UTC, read at
    10:15:00 for ten minutes: the window from 10:00:00 to 10:10:00 holds
    both. *)
Lemma ReadValues_window_witness :
  zone_ok 0
  /\ sensor_bucket store after_u1_u3 sensorID
     = Some [("2024-01-02T10:00:00Z"%string, text1);
             ("2024-01-02T10:10:00Z"%string, text1)]
  /\ ReadValues UTC json.Unmarshal store (clock 2024 1 2 10 15 0) after_u1_u3
       sensorID (10 * Minute)
     = Returns ([mkTimedSensorValues (Date 2024 1 2 10 0 0 0 UTC) v1;
                 mkTimedSensorValues (Date 2024 1 2 10 10 0 0 UTC) v1], None).
Proof.
  split; [exact zone_ok_0|]. split; [compute_eq|].
  assert (Hc : canonical_bucket 0
                 [("2024-01-02T10:00:00Z"%string, text1);
                  ("2024-01-02T10:10:00Z"%string, text1)]).
  { split.
    - repeat constructor.
    - constructor; [|constructor; [|constructor]]; cbn [fst].
      + exists (sec (Date 2024 1 2 10 0 0 0 UTC)).
        split; [in_years_now|compute_eq].
      + exists (sec (Date 2024 1 2 10 10 0 0 UTC)).
        split; [in_years_now|compute_eq]. }
  assert (Hy : in_years (localSeconds
                           (windowStart (FixedZone 0) store
                              (clock 2024 1 2 10 15 0) (10 * Minute))))
    by in_years_now.
  destruct (ReadValues_window 0 zone_ok_0 json.Unmarshal store
              (clock 2024 1 2 10 15 0) after_u1_u3 sensorID (10 * Minute)
              [("2024-01-02T10:00:00Z"%string, text1);
               ("2024-01-02T10:10:00Z"%string, text1)]
              ltac:(compute_eq) Hc Hy) as [H _].
  etransitivity; [exact H|]. compute_eq.
Defined.

(** C5 as stated fails: in Berlin, after the writes at 00:50 and 01:00 UTC,
    [ReadValues] at 01:05 UTC for eighty minutes returns the entry of
    01:00 UTC before the entry of 00:50 UTC. *)
Lemma C5_counterexample :
  ~ as_stated.C5 Berlin json.Marshal json.Unmarshal store provisioned sensorID
      [w1; w2] (clock 2024 10 27 1 5 0) (80 * Minute).
Proof.
  intros H.
  assert (E : instants
                (ReadValues Berlin json.Unmarshal store (clock 2024 10 27 1 5 0)
                   (storeAll Berlin json.Marshal store sensorID [w1; w2]
                      provisioned) sensorID (80 * Minute))
              = [clock 2024 10 27 1 0 0; clock 2024 10 27 0 50 0])
    by compute_eq.
  assert (L : clock 2024 10 27 0 50 0 < clock 2024 10 27 1 0 0)
    by (apply Z.ltb_lt; compute_eq).
  destruct (ReadValues Berlin json.Unmarshal store (clock 2024 10 27 1 5 0)
              (storeAll Berlin json.Marshal store sensorID [w1; w2] provisioned)
              sensorID (80 * Minute)) as [|[vals err]] eqn:R.
  - discriminate E.
  - specialize (H vals err R). cbn [instants] in E.
    destruct vals as [|x [|y rest]]; try discriminate E.
    cbn [map] in E, H. injection E as Ex Ey _.
    apply StronglySorted_inv in H as [_ H].
    apply List.Forall_cons_iff in H as [H _]. lia.
Qed.

(** C5, on the writes [u1] and [u3] under UTC. *)
Lemma ReadValues_ascending_witness :
  zone_ok 0
  /\ sensor_bucket store provisioned sensorID = Some []
  /\ canonical_bucket 0 []
  /\ Forall (fun m => in_years
                 (localSeconds (bucketStart (FixedZone 0) store (rcv_clock m))))
       [u1; u3]
  /\ forall vals err,
       ReadValues (FixedZone 0) json.Unmarshal store (clock 2024 1 2 10 15 0)
         (storeAll (FixedZone 0) json.Marshal store sensorID [u1; u3]
            provisioned) sensorID (10 * Minute) = Returns (vals, err) ->
       StronglySorted earlier (map Timestamp vals).
Proof.
  assert (Hc : canonical_bucket 0 []) by (split; constructor).
  assert (Hy : Forall (fun m => in_years
                         (localSeconds
                            (bucketStart (FixedZone 0) store (rcv_clock m))))
                 [u1; u3]).
  { constructor; [in_years_now|]. constructor; [in_years_now|constructor]. }
  split; [exact zone_ok_0|]. split; [compute_eq|]. split; [exact Hc|].
  split; [exact Hy|].
  intros vals err.
  apply (ReadValues_ascending 0 zone_ok_0 json.Marshal json.Unmarshal store
           provisioned sensorID [] [u1; u3] (clock 2024 1 2 10 15 0)
           (10 * Minute) vals err ltac:(compute_eq) Hc Hy).
Defined.

(** C7, on the two writes of the specification's scenario under UTC: both
    fall in the window of 10:00:00 and leave one entry, the second. *)
Lemma one_entry_per_window_witness :
  sensor_bucket store provisioned sensorID = Some []
  /\ ordered []
  /\ exists b1 b2 value2,
       sensor_bucket store after_u1 sensorID = Some b1
       /\ sensor_bucket store
            (storeAll UTC json.Marshal store sensorID [u1; u2] provisioned)
            sensorID = Some b2
       /\ json.Marshal v2 = Some value2
       /\ entries_at b2 (Format (bucketStart UTC store (rcv_clock u2)))
          = [(Format (bucketStart UTC store (rcv_clock u2)), value2)]
       /\ length b2 = length b1.
Proof.
  split; [compute_eq|]. split; [constructor|].
  apply (proj2 (one_entry_per_window UTC json.Marshal store provisioned sensorID
                  [] ltac:(compute_eq) ltac:(constructor))
           (rcv_clock u1) (rcv_clock u2) true true v1 v2); compute_eq.
Defined.

(** C8, under UTC: the write of a NaN fails in the encoder, and the routine
    goes on to store the value sent after it. *)
Lemma writer_continues_after_failed_write_witness :
  sensor_bucket store provisioned sensorID = Some []
  /\ StoreValues UTC json.Marshal store (rcv_clock uNaN) (rcv_commit uNaN)
       provisioned sensorID (rcv_values uNaN)
     = Returns (provisioned, Some MarshalError)
  /\ run UTC json.Marshal store sensorID 2
       (mkRoutine Running (mkChan [uNaN; u1] false) provisioned)
     = mkRoutine Running (mkChan [] false) after_u1.
Proof.
  split; [compute_eq|]. split; [compute_eq|].
  apply (proj2 (proj2 (writer_continues_after_failed_write UTC json.Marshal
           store sensorID provisioned [] uNaN [u1] false provisioned
           MarshalError ltac:(compute_eq) ltac:(compute_eq)))).
Defined.

(** C9, under UTC: two values are sent and the channel is closed; the
    routine stores both and stops. *)
Lemma writer_stops_on_close_witness :
  sensor_bucket store provisioned sensorID = Some []
  /\ run UTC json.Marshal store sensorID 3
       (mkRoutine Running (mkChan [u1; u3] true) provisioned)
     = mkRoutine Stopped (mkChan [] true) after_u1_u3.
Proof.
  split; [compute_eq|].
  apply (proj1 (writer_stops_on_close UTC json.Marshal store sensorID
                  provisioned [] [u1; u3] ltac:(compute_eq))).
Defined.

End runs.

(** * Provisioning: [New], [StoreValuesChannel] and the start of [main] *)

Module provisioning_facts.
Import time bolt sensorstore bolt_facts sensorstore_facts.

Lemma CreateBucketIfNotExists_cases {V} (empty : V) (m : gmap string V) name :
  CreateBucketIfNotExists empty m name
  = if (String.length name =? 0)%nat then inr ErrBucketNameRequired
    else inl (<[name := default empty (m !! name)]> m).
Proof.
  unfold CreateBucketIfNotExists. destruct (String.length name =? 0)%nat; [reflexivity|].
  destruct (m !! name) as [v|] eqn:E; simpl; [|reflexivity].
  now rewrite insert_id.
Qed.

Lemma length_zero_iff (s : string) : (String.length s =? 0)%nat = true <-> s = EmptyString.
Proof. destruct s; simpl; split; congruence. Qed.

Lemma New_cases commit_ok (d : DB) resolution :
  New commit_ok d resolution
  = if commit_ok
    then Returns (<[sensorBucket := default ∅ (d !! sensorBucket)]> d,
                  (Some (mkStore resolution sensorBucket), None))
    else Returns (d, (None, Some (BoltError ErrCommit))).
Proof.
  unfold New, Update. rewrite CreateBucketIfNotExists_cases.
  change (String.length sensorBucket =? 0)%nat with false. cbv iota.
  destruct commit_ok; reflexivity.
Qed.

Lemma StoreValuesChannel_cases s commit_ok (d : DB) sensorID (root : Buckets) :
  d !! rootBucket s = Some root ->
  StoreValuesChannel s commit_ok d sensorID
  = if (String.length sensorID =? 0)%nat
    then Returns (d, Some (CreateBucketError sensorID ErrBucketNameRequired))
    else if commit_ok
    then Returns (<[rootBucket s := <[sensorID := default [] (root !! sensorID)]> root]> d,
                  None)
    else Returns (d, Some (BoltError ErrCommit)).
Proof.
  intros Hr. unfold StoreValuesChannel, Update. rewrite Hr.
  rewrite CreateBucketIfNotExists_cases.
  destruct (String.length sensorID =? 0)%nat; [reflexivity|].
  destruct commit_ok; reflexivity.
Qed.

(** X1: [New] never panics. When the engine commits, it returns the store
    of the given resolution over the root bucket "sensors", which exists
    afterwards with the nested buckets it had (none if it is new), every
    other top-level bucket being as before; when the root bucket existed
    the database is unchanged. When the commit fails it returns the
    engine's error and no store, the database unchanged. *)
Theorem New_keeps_data commit_ok (d : DB) resolution :
  New commit_ok d resolution <> Panics
  /\ (commit_ok = false ->
      New commit_ok d resolution
      = Returns (d, (None, Some (BoltError ErrCommit))))
  /\ (commit_ok = true ->
      exists d',
        New commit_ok d resolution
        = Returns (d', (Some (mkStore resolution sensorBucket), None))
        /\ d' !! sensorBucket = Some (default ∅ (d !! sensorBucket))
        /\ (forall name, name <> sensorBucket -> d' !! name = d !! name)
        /\ (is_Some (d !! sensorBucket) -> d' = d)).
Proof.
  rewrite New_cases. destruct commit_ok.
  - split; [discriminate|]. split; [discriminate|]. intros _.
    eexists. split; [reflexivity|]. split; [apply lookup_insert_eq|].
    split.
    + intros name Hn. now apply lookup_insert_ne.
    + intros [root Hr]. rewrite Hr. simpl. now apply insert_id.
  - split; [discriminate|]. split; [reflexivity|discriminate].
Qed.

(** X2: on a database with the root bucket, [StoreValuesChannel] refuses
    the empty sensor name with the engine's "bucket name required" and
    changes nothing; for another name it returns the engine's error,
    changing nothing, when the commit fails; and when the engine commits
    it leaves the sensor with the bucket it had, or an empty one, touches
    no other sensor and no other top-level bucket, and a second call
    changes nothing more. *)
Theorem StoreValuesChannel_provisions s commit_ok (d : DB) sensorID
    (root : Buckets) :
  d !! rootBucket s = Some root ->
  (sensorID = EmptyString ->
   StoreValuesChannel s commit_ok d sensorID
   = Returns (d, Some (CreateBucketError EmptyString ErrBucketNameRequired)))
  /\ (sensorID <> EmptyString -> commit_ok = false ->
      StoreValuesChannel s commit_ok d sensorID
      = Returns (d, Some (BoltError ErrCommit)))
  /\ (sensorID <> EmptyString -> commit_ok = true ->
      exists d',
        StoreValuesChannel s commit_ok d sensorID = Returns (d', None)
        /\ sensor_bucket s d' sensorID = Some (default [] (root !! sensorID))
        /\ (forall other, other <> sensorID ->
            sensor_bucket s d' other = sensor_bucket s d other)
        /\ (forall name, name <> rootBucket s -> d' !! name = d !! name)
        /\ StoreValuesChannel s true d' sensorID = Returns (d', None)).
Proof.
  intros Hr. rewrite (StoreValuesChannel_cases s commit_ok d sensorID root Hr).
  split; [|split].
  - intros ->. reflexivity.
  - intros Hn ->. destruct (String.length sensorID =? 0)%nat eqn:E.
    + apply length_zero_iff in E. contradiction.
    + reflexivity.
  - intros Hn ->. destruct (String.length sensorID =? 0)%nat eqn:E.
    { apply length_zero_iff in E. contradiction. }
    eexists. split; [reflexivity|]. split; [|split; [|split]].
    + unfold sensor_bucket. rewrite lookup_insert_eq. apply lookup_insert_eq.
    + intros other Ho. unfold sensor_bucket. rewrite lookup_insert_eq, Hr.
      now apply lookup_insert_ne.
    + intros name Hname. now apply lookup_insert_ne.
    + erewrite StoreValuesChannel_cases by apply lookup_insert_eq.
      rewrite E, lookup_insert_eq. simpl. now rewrite !insert_insert_eq.
Qed.

(** X3: [main] never panics before the sampling loop. It reaches the loop
    exactly when the database opens and both transactions commit, and then
    with the store of [New] at ten minutes over "sensors", the sensor
    "test" holding the bucket it had before, or an empty one. *)
Theorem start_serves opened commit1 commit2 (d : DB) :
  main.start opened commit1 commit2 d <> main.Crashes
  /\ ((exists s d', main.start opened commit1 commit2 d = main.Serves s d')
      <-> opened = true /\ commit1 = true /\ commit2 = true)
  /\ (forall s d',
        main.start opened commit1 commit2 d = main.Serves s d' ->
        s = mkStore (10 * Minute) sensorBucket
        /\ sensor_bucket s d' main.sensorID
           = Some (default [] (sensor_bucket s d main.sensorID))).
Proof.
  unfold main.start. rewrite New_cases.
  destruct opened; cbn [negb].
  2:{ split; [discriminate|]. split; [|discriminate].
      split; [intros (s & d' & H); discriminate | intros (H & _); discriminate]. }
  destruct commit1.
  2:{ split; [discriminate|]. split; [|discriminate].
      split; [intros (s & d' & H); discriminate | intros (_ & H & _); discriminate]. }
  erewrite StoreValuesChannel_cases by apply lookup_insert_eq.
  change (String.length main.sensorID =? 0)%nat with false. cbv iota.
  destruct commit2.
  - split; [discriminate|]. split.
    + split; [auto | intros _; eauto].
    + intros s d' [= <- <-]. split; [reflexivity|].
      unfold sensor_bucket. cbn [rootBucket].
      rewrite !lookup_insert_eq.
      destruct (d !! sensorBucket); reflexivity.
  - split; [discriminate|]. split; [|discriminate].
    split; [intros (s & d' & H); discriminate | intros (_ & _ & H); discriminate].
Qed.

End provisioning_facts.

(** * The keys of the store: RFC 3339 texts of times *)

Module key_facts.
Import bytes time bolt sensorstore bytes_facts time_facts.

Lemma parsedLoc_at Local off u : parsedLoc Local off u u = off.
Proof.
  unfold parsedLoc. destruct (Z.eqb_spec off 0) as [->|_]; [reflexivity|].
  destruct (Z.eqb_spec (Local u) off); [assumption|reflexivity].
Qed.

Lemma sec_of_seconds a l : sec (mkTime (a * Second) l) = a.
Proof. unfold sec. cbn [abs]. apply Z.div_mul. discriminate. Qed.

(** What [time.Parse] makes of the text of a presentable time. *)
Lemma Parse_presentable Local t : presentable t ->
  Parse Local (Format t)
  = Some (mkTime (sec t * Second)
            (parsedLoc Local (offset t) (unixSec t))).
Proof.
  intros [Hy Hz]. unfold Format. fold (localSeconds t).
  rewrite Parse_formatLocal by assumption.
  unfold localSeconds, unixSec. do 3 f_equal; lia.
Qed.

(** Two presentable times with the same text are in the same second and
    under the same offset. *)
Lemma key_injective t u :
  presentable t -> presentable u ->
  Format t = Format u ->
  sec t = sec u /\ offset t = offset u.
Proof.
  intros Ht Hu E.
  pose proof (Parse_presentable UTC t Ht) as Pt.
  pose proof (Parse_presentable UTC u Hu) as Pu.
  rewrite E, Pu in Pt. injection Pt as Ha Hl.
  assert (Hs : sec t = sec u) by (unfold Second in Ha; lia).
  split; [exact Hs|].
  transitivity (parsedLoc UTC (offset t) (unixSec t) (unixSec t));
    [symmetry; apply parsedLoc_at|].
  rewrite <- Hl. unfold unixSec at 2. rewrite Hs. apply parsedLoc_at.
Qed.

(** For two times under one offset, both in the years 1 to 9999, the byte
    order of the texts is the order of the times, second by second. *)
Lemma key_order t u :
  offset t = offset u ->
  in_years (localSeconds t) -> in_years (localSeconds u) ->
  String.compare (Format t) (Format u) = (sec t ?= sec u).
Proof.
  intros Ho Ht Hu. unfold Format, localSeconds in *. rewrite Ho in *.
  rewrite formatLocal_compare by assumption.
  destruct (Z.compare_spec (sec t + offset u) (sec u + offset u)),
    (Z.compare_spec (sec t) (sec u)); try reflexivity; lia.
Qed.

End key_facts.


(** * Writes and queries: what they change, keep and return *)

Module store_facts.
Import bytes time bolt sensorstore bytes_facts time_facts bolt_facts
  sensorstore_facts key_facts.

Section General.

Variable Local : Location.
Variable json_Marshal : SensorValues -> option string.
Variable json_Unmarshal : string -> option SensorValues.

Local Abbreviation StoreValues := (sensorstore.StoreValues Local json_Marshal).
Local Abbreviation ReadLastValue := (sensorstore.ReadLastValue Local json_Unmarshal).
Local Abbreviation ReadValues := (sensorstore.ReadValues Local json_Unmarshal).
Local Abbreviation convertToValues := (sensorstore.convertToValues Local json_Unmarshal).
Local Abbreviation readLoop := (sensorstore.readLoop Local json_Unmarshal).
Local Abbreviation bucketStart := (sensorstore.bucketStart Local).
Local Abbreviation windowStart := (sensorstore.windowStart Local).
Local Abbreviation storeAll := (sensorstore.storeAll Local json_Marshal).

Lemma written_other_sensor s (d : DB) (root : Buckets) sensorID b other :
  d !! rootBucket s = Some root -> other <> sensorID ->
  sensor_bucket s (written s d root sensorID b) other = sensor_bucket s d other.
Proof.
  intros Hr Ho. unfold sensor_bucket, written. rewrite lookup_insert_eq, Hr.
  now apply lookup_insert_ne.
Qed.

(** What a call that returns leaves of the database: itself, or the
    database with the sensor's bucket after the [Put]. *)
Lemma StoreValues_returns s clock commit_ok (d : DB) sensorID values d' err :
  StoreValues s clock commit_ok d sensorID values = Returns (d', err) ->
  (d' = d /\ err <> None)
  \/ (exists root b b',
        d !! rootBucket s = Some root /\ root !! sensorID = Some b
        /\ d' = written s d root sensorID b' /\ err = None).
Proof.
  rewrite StoreValues_cases.
  destruct (d !! rootBucket s) as [root|] eqn:Hr; [|discriminate].
  destruct (json_Marshal values) as [value|];
    [|intros [= <- <-]; left; split; [reflexivity|discriminate]].
  destruct (root !! sensorID) as [b|] eqn:Hs; [|discriminate].
  destruct (Put b _ value) as [b'|e];
    [|intros [= <- <-]; left; split; [reflexivity|discriminate]].
  destruct commit_ok; intros [= <- <-].
  - right. exists root, b, b'. auto.
  - left. split; [reflexivity|discriminate].
Qed.

(** X4: a [StoreValues] call that returns an error leaves the database as
    it was; and whatever it returns, it changes no bucket of another
    sensor and no other top-level bucket. *)
Theorem StoreValues_changes_only_its_bucket s clock commit_ok (d : DB)
    sensorID values d' err :
  StoreValues s clock commit_ok d sensorID values = Returns (d', err) ->
  (err <> None -> d' = d)
  /\ (forall other, other <> sensorID ->
      sensor_bucket s d' other = sensor_bucket s d other)
  /\ (forall name, name <> rootBucket s -> d' !! name = d !! name).
Proof.
  intros H.
  destruct (StoreValues_returns _ _ _ _ _ _ _ _ H)
    as [[-> He]|(root & b & b' & Hr & Hs & -> & ->)].
  - split; [reflexivity|]. split; reflexivity.
  - split; [congruence|]. split.
    + intros other Ho. now apply written_other_sensor.
    + intros name Hn. unfold written. now apply lookup_insert_ne.
Qed.

(** X5: the writer routine's calls for one sensor, whatever they return,
    leave the bucket of every other sensor as it was. *)
Theorem storeAll_changes_only_its_bucket s sensorID ms : forall (d : DB) other,
  other <> sensorID ->
  sensor_bucket s (storeAll s sensorID ms d) other = sensor_bucket s d other.
Proof.
  induction ms as [|m ms IH]; intros d other Ho; [reflexivity|].
  cbn [sensorstore.storeAll].
  destruct (StoreValues s (rcv_clock m) (rcv_commit m) d sensorID (rcv_values m))
    as [|[d' err]] eqn:E; [reflexivity|].
  rewrite (IH d' other Ho).
  destruct (StoreValues_returns _ _ _ _ _ _ _ _ E)
    as [[-> He]|(root & b & b' & Hr & Hs & -> & ->)]; [reflexivity|].
  now apply written_other_sensor.
Qed.

Lemma length_insert_ordered b key value :
  ordered b ->
  length (insert b key value)
  = if existsb (fun e => String.eqb (fst e) key) b then length b
    else S (length b).
Proof.
  induction b as [|[k v] rest IH]; intros Ho; [reflexivity|].
  apply ordered_inv in Ho as [Hrest Hall]. cbn [insert existsb fst].
  destruct (String.compare key k) eqn:C.
  - apply compare_Eq in C. subst k. now rewrite String.eqb_refl.
  - destruct (String.eqb_spec k key) as [->|_].
    { rewrite compare_refl in C. discriminate. }
    replace (existsb (fun e => String.eqb (fst e) key) rest) with false;
      [reflexivity|].
    symmetry. apply not_true_is_false. intros Hex.
    apply existsb_exists in Hex as (x & Hx & Ex). apply String.eqb_eq in Ex.
    rewrite List.Forall_forall in Hall. specialize (Hall x Hx).
    unfold key_lt in Hall. cbn [fst] in Hall. rewrite Ex in Hall.
    pose proof (compare_trans _ _ _ C Hall) as T. rewrite compare_refl in T.
    discriminate.
  - destruct (String.eqb_spec k key) as [->|_].
    { rewrite compare_refl in C. discriminate. }
    cbn [length]. rewrite (IH Hrest).
    destruct (existsb _ rest); reflexivity.
Qed.

(** X6: a call that stores, on a bucket in key order, keeps the bucket in
    key order, keeps every entry under another key and adds none under
    another key; the bucket gains one entry when the key was absent and
    none when it was present. *)
Theorem StoreValues_keeps_other_entries s clock commit_ok (d : DB) sensorID
    values d' b :
  StoreValues s clock commit_ok d sensorID values = Returns (d', None) ->
  sensor_bucket s d sensorID = Some b ->
  ordered b ->
  exists b',
    sensor_bucket s d' sensorID = Some b'
    /\ ordered b'
    /\ (forall k v, k <> Format (bucketStart s clock) ->
        (In (k, v) b' <-> In (k, v) b))
    /\ length b'
       = if existsb (fun e => String.eqb (fst e) (Format (bucketStart s clock))) b
         then length b else S (length b).
Proof.
  intros H Hb Ho.
  destruct (StoreValues_ok _ _ _ _ _ _ _ _ _ H) as (b0 & value & Hb0 & _ & _ & _ & Hb').
  rewrite Hb in Hb0. injection Hb0 as <-.
  eexists. split; [exact Hb'|]. split; [now apply insert_ordered|]. split.
  - intros k v Hk. split.
    + intros Hin. destruct (insert_In _ _ _ _ Hin) as [E|Hin']; [|exact Hin'].
      injection E as E _. contradiction.
    + intros Hin. now apply In_insert_other.
  - now apply length_insert_ordered.
Qed.

(** X7: under a positive resolution, every clock reading from a bucket
    start up to the resolution later has that same bucket start, so a
    write at it goes under the same key. *)
Theorem same_window_same_key s clock1 clock2 :
  0 < resolution s ->
  abs (bucketStart s clock1) <= clock2
    < abs (bucketStart s clock1) + resolution s ->
  bucketStart s clock2 = bucketStart s clock1
  /\ Format (bucketStart s clock2) = Format (bucketStart s clock1).
Proof.
  intros Hr Hw.
  assert (E : bucketStart s clock2 = bucketStart s clock1).
  { unfold sensorstore.bucketStart, Truncate, Now in *.
    destruct (Z.leb_spec (resolution s) 0); [lia|]. cbn [abs loc] in *.
    f_equal.
    set (r := resolution s) in *.
    set (T := clock1 - clock1 mod r) in *.
    assert (HT : T = r * (clock1 / r))
      by (unfold T; rewrite Z.mod_eq by lia; lia).
    assert (Hq : clock1 / r = clock2 / r)
      by (apply Z.div_unique with (r := clock2 - T); lia).
    rewrite (Z.mod_eq clock2 r) by lia. rewrite <- Hq. lia. }
  split; [exact E | now rewrite E].
Qed.


(** X8: the key of a presentable time (years 1 to 9999, offset of whole
    minutes) decodes: [convertToValues] on it gives the instant of the time
    cut to the second, under the same offset, whose own key is the key
    decoded; the result is an error exactly when the value does not
    decode, and then the decoder's. *)
Theorem key_round_trip t v :
  presentable t ->
  exists t',
    abs t' = sec t * Second
    /\ offset t' = offset t
    /\ Format t' = Format t
    /\ convertToValues (Format t) v
       = match json_Unmarshal v with
         | Some values => inl (mkTimedSensorValues t' values)
         | None => inr (UnmarshalError v)
         end.
Proof.
  intros Hp.
  exists (mkTime (sec t * Second) (parsedLoc Local (offset t) (unixSec t))).
  assert (Ho : offset (mkTime (sec t * Second)
                         (parsedLoc Local (offset t) (unixSec t))) = offset t).
  { unfold offset, unixSec. cbn [loc]. rewrite sec_of_seconds.
    apply parsedLoc_at. }
  split; [reflexivity|]. split; [exact Ho|]. split.
  - unfold Format. rewrite Ho, sec_of_seconds. reflexivity.
  - unfold sensorstore.convertToValues, time_Parse.
    rewrite (Parse_presentable Local t Hp). reflexivity.
Qed.

(** X9: under a positive resolution of whole seconds, two writes whose
    bucket starts are presentable (years 1 to 9999, offset of whole
    minutes) and that go under the same key have the same bucket start:
    writes of different resolution windows never share an entry. *)
Theorem different_windows_different_keys s clock1 clock2 :
  0 < resolution s -> resolution s mod Second = 0 ->
  presentable (bucketStart s clock1) -> presentable (bucketStart s clock2) ->
  Format (bucketStart s clock1) = Format (bucketStart s clock2) ->
  bucketStart s clock1 = bucketStart s clock2.
Proof.
  intros Hpos Hmod H1 H2 E.
  destruct (key_injective _ _ H1 H2 E) as [Hs _].
  unfold sensorstore.bucketStart in *.
  destruct (Truncate_spec (Now Local clock1) (resolution s) Hpos) as [M1 _].
  destruct (Truncate_spec (Now Local clock2) (resolution s) Hpos) as [M2 _].
  pose proof (Truncate_loc (Now Local clock1) (resolution s)) as L1.
  pose proof (Truncate_loc (Now Local clock2) (resolution s)) as L2.
  destruct (Truncate (Now Local clock1) (resolution s)) as [a1 l1].
  destruct (Truncate (Now Local clock2) (resolution s)) as [a2 l2].
  unfold sec in Hs. cbn [abs loc] in *. subst l1 l2. f_equal.
  unfold Second in *. Z.div_mod_to_equations. nia.
Qed.

(** X10: the sign of the duration does not matter to [ReadValues]: both
    branches take the start of the window the magnitude of the duration
    before the clock reading. *)
Theorem ReadValues_sign s clock (d : DB) sensorID duration :
  ReadValues s clock d sensorID (- duration)
  = ReadValues s clock d sensorID duration.
Proof.
  unfold sensorstore.ReadValues.
  destruct (Z.ltb_spec 0 duration), (Z.ltb_spec 0 (- duration)); try lia.
  - reflexivity.
  - rewrite Z.opp_involutive. reflexivity.
  - replace duration with 0 by lia. reflexivity.
Qed.

(** X11: on a provisioned sensor none of whose keys reaches the key of the
    window start, as on an empty namespace, [ReadValues] returns the empty
    list and no error. *)
Theorem ReadValues_nothing_in_range s clock (d : DB) sensorID duration b :
  sensor_bucket s d sensorID = Some b ->
  Forall (fun e => String.ltb (fst e) (Format (windowStart s clock duration))
                   = true) b ->
  ReadValues s clock d sensorID duration = Returns ([], None).
Proof.
  intros Hb Hall. apply sensor_bucket_Some in Hb as (root & Hr & Hs).
  unfold sensorstore.ReadValues, View. rewrite Hr, Hs. f_equal.
  replace (if 0 <? duration
           then Format (Truncate (Add (Now Local clock) (- duration)) (resolution s))
           else Format (Truncate (Add (Now Local clock) duration) (resolution s)))
    with (Format (windowStart s clock duration))
    by (unfold sensorstore.windowStart; destruct (0 <? duration); reflexivity).
  clear Hr Hs.
  induction Hall as [|[k v] rest Hk Hrest IH]; [reflexivity|].
  cbn [Seek]. cbn [fst] in Hk. rewrite Hk. exact IH.
Qed.

Lemma Last_greatest b : ordered b -> b <> [] ->
  exists k v, Last b = [(k, v)] /\ In (k, v) b /\ no_key_above b k.
Proof.
  induction b as [|[k v] rest IH]; intros Ho Hne; [contradiction|].
  apply ordered_inv in Ho as [Hrest Hall].
  destruct rest as [|e rest'].
  - exists k, v. split; [reflexivity|]. split; [now left|].
    constructor; [|constructor]. unfold String.leb. cbn [fst].
    now rewrite compare_refl.
  - destruct (IH Hrest ltac:(discriminate)) as (k' & v' & HL & Hin & Hmax).
    exists k', v'. split; [exact HL|]. split; [now right|].
    constructor; [|exact Hmax].
    rewrite List.Forall_forall in Hall. specialize (Hall _ Hin).
    unfold key_lt in Hall. cbn [fst] in *. unfold String.leb. now rewrite Hall.
Qed.

(** X12: on a sensor whose bucket is in key order and not empty,
    [ReadLastValue] returns what [convertToValues] makes of the entry under
    the greatest key, in byte order, of the bucket: its decoding, or its
    error with a nil result. *)
Theorem ReadLastValue_greatest_key s (d : DB) sensorID b :
  sensor_bucket s d sensorID = Some b ->
  ordered b -> b <> [] ->
  exists k v,
    In (k, v) b
    /\ no_key_above b k
    /\ ReadLastValue s d sensorID = Returns (pair_of (convertToValues k v)).
Proof.
  intros Hb Ho Hne. apply sensor_bucket_Some in Hb as (root & Hr & Hs).
  destruct (Last_greatest b Ho Hne) as (k & v & HL & Hin & Hmax).
  exists k, v. split; [exact Hin|]. split; [exact Hmax|].
  unfold sensorstore.ReadLastValue, View. rewrite Hr, Hs, HL. reflexivity.
Qed.

End General.
End store_facts.

(** * The queries on any bucket, and a write followed by a range query *)

Module query_facts.
Import time bolt sensorstore bytes_facts time_facts bolt_facts sensorstore_facts.

Section General.

Variable Local : Location.
Variable json_Marshal : SensorValues -> option string.
Variable json_Unmarshal : string -> option SensorValues.

Local Abbreviation StoreValues := (sensorstore.StoreValues Local json_Marshal).
Local Abbreviation ReadValues := (sensorstore.ReadValues Local json_Unmarshal).
Local Abbreviation convertToValues := (sensorstore.convertToValues Local json_Unmarshal).
Local Abbreviation readLoop := (sensorstore.readLoop Local json_Unmarshal).
Local Abbreviation time_Parse := (sensorstore.time_Parse Local).
Local Abbreviation bucketStart := (sensorstore.bucketStart Local).
Local Abbreviation windowStart := (sensorstore.windowStart Local).
Local Abbreviation run := (sensorstore.run Local json_Marshal).
Local Abbreviation storeAll := (sensorstore.storeAll Local json_Marshal).

Local Ltac stops_here :=
  rewrite app_nil_r; split; [reflexivity|]; split; [reflexivity|];
  split; [constructor|]; split; [constructor|].

(** The loop of [ReadValues] appends the decodings of a run of pairs at
    the head of the cursor, none after the end of the window, and stops at
    the end of the cursor, at an empty key, at a key after the end, or
    with the error of the first pair that does not decode. *)
Lemma readLoop_run endTime l : forall acc,
  exists es rest vals err,
    readLoop endTime l acc = (acc ++ vals, err)
    /\ l = es ++ rest
    /\ Forall2 (fun e x => convertToValues (fst e) (snd e) = inl x) es vals
    /\ Forall (fun x => abs (Timestamp x) <= abs endTime) vals
    /\ match err with
       | Some e =>
           exists k v rest', rest = (k, v) :: rest'
             /\ k <> EmptyString /\ convertToValues k v = inr e
       | None =>
           rest = []
           \/ exists k v rest', rest = (k, v) :: rest'
                /\ (k = EmptyString
                    \/ exists t, time_Parse k = Some t
                                 /\ abs endTime < abs t)
       end.
Proof.
  induction l as [|[k v] next IH]; intros acc.
  - exists [], [], [], None. cbn [sensorstore.readLoop]. stops_here. now left.
  - cbn [sensorstore.readLoop].
    destruct (String.length k =? 0)%nat eqn:L.
    { exists [], ((k, v) :: next), [], None. stops_here.
      right. exists k, v, next. split; [reflexivity|]. left.
      apply Nat.eqb_eq in L. destruct k; [reflexivity|discriminate]. }
    assert (Hk : k <> EmptyString) by (intros ->; discriminate).
    destruct (sensorstore.time_Parse Local k) as [t|] eqn:P.
    2:{ exists [], ((k, v) :: next), [], (Some (ParseError k)). stops_here.
        exists k, v, next. split; [reflexivity|]. split; [exact Hk|].
        unfold sensorstore.convertToValues. now rewrite P. }
    destruct (After t endTime) eqn:A.
    { exists [], ((k, v) :: next), [], None. stops_here.
      right. exists k, v, next. split; [reflexivity|]. right. exists t.
      split; [exact P|]. unfold After in A. now apply Z.ltb_lt in A. }
    destruct (sensorstore.convertToValues Local json_Unmarshal k v) as [x|e] eqn:C.
    2:{ exists [], ((k, v) :: next), [], (Some e). stops_here.
        exists k, v, next. split; [reflexivity|]. split; [exact Hk|exact C]. }
    destruct (IH (acc ++ [x])) as (es & rest & vals & err & HR & -> & HF & HA & HE).
    exists ((k, v) :: es), rest, (x :: vals), err.
    rewrite HR, <- app_assoc. split; [reflexivity|]. split; [reflexivity|].
    split; [constructor; assumption|]. split; [|exact HE].
    constructor; [|exact HA].
    unfold sensorstore.convertToValues in C. rewrite P in C.
    destruct (json_Unmarshal v); [|discriminate]. injection C as <-.
    cbn [Timestamp]. unfold After in A. now apply Z.ltb_ge in A.
Qed.

(** X13: on a provisioned sensor, whatever the bucket holds and whatever
    the local zone, [ReadValues] returns the decodings, in bucket order, of
    a run of entries that starts at the first entry whose key is not below
    the key of the window start; no returned timestamp is after the end of
    the window (the clock reading truncated to the resolution); a returned
    error is that of the entry right after the run, the values before it
    being returned with it; without an error, the run ends with the bucket,
    at an empty key, or before a key that denotes an instant after the end
    of the window. *)
Theorem ReadValues_returns_a_run s clock (d : DB) sensorID duration b :
  sensor_bucket s d sensorID = Some b ->
  exists es rest vals err,
    ReadValues s clock d sensorID duration = Returns (vals, err)
    /\ Seek b (Format (windowStart s clock duration)) = es ++ rest
    /\ Forall2 (fun e x => convertToValues (fst e) (snd e) = inl x) es vals
    /\ Forall (fun x => abs (Timestamp x) <= abs (bucketStart s clock)) vals
    /\ match err with
       | Some e =>
           exists k v rest', rest = (k, v) :: rest'
             /\ k <> EmptyString /\ convertToValues k v = inr e
       | None =>
           rest = []
           \/ exists k v rest', rest = (k, v) :: rest'
                /\ (k = EmptyString
                    \/ exists t, time_Parse k = Some t
                                 /\ abs (bucketStart s clock) < abs t)
       end.
Proof.
  intros Hb. apply sensor_bucket_Some in Hb as (root & Hr & Hs).
  destruct (readLoop_run (bucketStart s clock)
              (Seek b (Format (windowStart s clock duration))) [])
    as (es & rest & vals & err & HR & HS & HF & HA & HE).
  exists es, rest, vals, err.
  split; [|repeat split; assumption].
  unfold sensorstore.ReadValues, View. rewrite Hr, Hs. f_equal.
  replace (if 0 <? duration
           then Format (Truncate (Add (Now Local clock) (- duration)) (resolution s))
           else Format (Truncate (Add (Now Local clock) duration) (resolution s)))
    with (Format (windowStart s clock duration))
    by (unfold sensorstore.windowStart; destruct (0 <? duration); reflexivity).
  exact HR.
Qed.

Lemma run_provisioned s sensorID n : forall ms cl (d : DB) b,
  sensor_bucket s d sensorID = Some b ->
  let r := run s sensorID n (mkRoutine Running (mkChan ms cl) d) in
  status r <> Crashed
  /\ db r = storeAll s sensorID (firstn n ms) d
  /\ sent (chan r) = skipn n ms.
Proof.
  induction n as [|n IH]; intros ms cl d b Hb; [cbn; auto|].
  cbn zeta. rewrite run_S. unfold sensorstore.step. cbn [status chan sent db closed].
  destruct ms as [|m rest].
  - destruct cl.
    + rewrite run_stuck by reflexivity. cbn. auto.
    + cbn. auto.
  - cbn [firstn skipn sensorstore.storeAll].
    destruct (StoreValues_provisioned Local json_Marshal s (rcv_clock m)
                (rcv_commit m) d sensorID (rcv_values m) b Hb)
      as (d' & err & b' & -> & Hb' & _).
    exact (IH rest cl d' b' Hb').
Qed.

(** X14: the writer routine that [StoreValuesChannel] starts when it
    returns without an error never panics: whatever is sent on the channel
    and whether or not it is closed, after any number of turns the routine
    has not crashed, the database is the one the calls [StoreValues] on
    the values received so far leave, in order, and the values not yet
    received are the rest of those sent. *)
Theorem started_writer_never_crashes s commit_ok (d d' : DB) sensorID ms cl n :
  StoreValuesChannel s commit_ok d sensorID = Returns (d', None) ->
  let r := run s sensorID n (mkRoutine Running (mkChan ms cl) d') in
  status r <> Crashed
  /\ db r = storeAll s sensorID (firstn n ms) d'
  /\ sent (chan r) = skipn n ms.
Proof.
  intros H.
  assert (Hb : exists b, sensor_bucket s d' sensorID = Some b).
  { destruct (d !! rootBucket s) as [root|] eqn:Hr.
    - rewrite (provisioning_facts.StoreValuesChannel_cases s commit_ok d
                 sensorID root Hr) in H.
      destruct (String.length sensorID =? 0)%nat; [discriminate|].
      destruct commit_ok; [|discriminate]. injection H as <-.
      unfold sensor_bucket. rewrite lookup_insert_eq, lookup_insert_eq. eauto.
    - unfold StoreValuesChannel, Update in H. rewrite Hr in H. discriminate. }
  destruct Hb as [b Hb]. exact (run_provisioned s sensorID n ms cl d' b Hb).
Qed.

End General.

Section FixedOffset.

Variable off : Z.
Hypothesis off_ok : zone_ok off.
Variable json_Marshal : SensorValues -> option string.
Variable json_Unmarshal : string -> option SensorValues.

Local Abbreviation Local := (FixedZone off).
Local Abbreviation StoreValues := (sensorstore.StoreValues Local json_Marshal).
Local Abbreviation ReadValues := (sensorstore.ReadValues Local json_Unmarshal).
Local Abbreviation convertToValues := (sensorstore.convertToValues Local json_Unmarshal).
Local Abbreviation decodeAll := (sensorstore.decodeAll Local json_Unmarshal).
Local Abbreviation bucketStart := (sensorstore.bucketStart Local).
Local Abbreviation windowStart := (sensorstore.windowStart Local).
Local Abbreviation not_after := (sensorstore.not_after Local).

Lemma decodeAll_complete es : forall acc vals,
  decodeAll es acc = (vals, None) ->
  (forall x, In x acc -> In x vals)
  /\ (forall k v, In (k, v) es ->
      exists x, convertToValues k v = inl x /\ In x vals).
Proof.
  induction es as [|[k v] rest IH]; intros acc vals H; cbn [sensorstore.decodeAll] in H.
  - injection H as <-. split; [auto|]. intros k v [].
  - destruct (sensorstore.convertToValues Local json_Unmarshal k v) as [x|e] eqn:C;
      [|discriminate].
    destruct (IH _ _ H) as [Hacc Hes]. split.
    + intros y Hy. apply Hacc. apply in_or_app. now left.
    + intros k' v' [[= <- <-]|Hin]; [|now apply Hes].
      exists x. split; [exact C|]. apply Hacc. apply in_or_app. right. now left.
Qed.

Lemma offset_bucketStart s clock : offset (bucketStart s clock) = off.
Proof. unfold sensorstore.bucketStart. now apply offset_fixed. Qed.

Lemma offset_windowStart s clock duration :
  offset (windowStart s clock duration) = off.
Proof.
  unfold sensorstore.windowStart. destruct (0 <? duration); now apply offset_fixed.
Qed.

Lemma windowStart_le s clock clock' duration :
  clock' - Z.abs duration <= clock ->
  abs (windowStart s clock' duration) <= abs (bucketStart s clock).
Proof.
  intros H. unfold sensorstore.windowStart, sensorstore.bucketStart.
  destruct (Z.ltb_spec 0 duration); apply Truncate_mono;
    unfold Add, Now; cbn [abs]; lia.
Qed.

(** X15: under a local zone of one offset, the keys of two writes whose
    bucket starts lie in the years 1 to 9999 compare, as byte strings, as
    the bucket starts do second by second; so a write at a later clock
    reading never goes under a lesser key. *)
Theorem later_write_greater_key s clock1 clock2 :
  in_years (localSeconds (bucketStart s clock1)) ->
  in_years (localSeconds (bucketStart s clock2)) ->
  String.compare (Format (bucketStart s clock1)) (Format (bucketStart s clock2))
  = (sec (bucketStart s clock1) ?= sec (bucketStart s clock2))
  /\ (clock1 <= clock2 ->
      String.ltb (Format (bucketStart s clock2)) (Format (bucketStart s clock1))
      = false).
Proof.
  intros H1 H2.
  assert (Ho : offset (bucketStart s clock1) = offset (bucketStart s clock2))
    by now rewrite !offset_bucketStart.
  split; [exact (key_facts.key_order _ _ Ho H1 H2)|].
  intros Hle. unfold String.ltb.
  rewrite (key_facts.key_order _ _ (eq_sym Ho) H2 H1).
  assert (abs (bucketStart s clock1) <= abs (bucketStart s clock2))
    by (apply Truncate_mono; unfold sensorstore.Now; cbn [abs]; lia).
  assert (sec (bucketStart s clock1) <= sec (bucketStart s clock2))
    by (unfold sec; apply Z.div_le_mono; [reflexivity|assumption]).
  destruct (Z.compare_spec (sec (bucketStart s clock2))
              (sec (bucketStart s clock1))); try reflexivity; lia.
Qed.

Lemma Format_window s clock duration :
  (if 0 <? duration
   then Format (Truncate (Add (Now Local clock) (- duration)) (resolution s))
   else Format (Truncate (Add (Now Local clock) duration) (resolution s)))
  = Format (windowStart s clock duration).
Proof. unfold sensorstore.windowStart. destruct (0 <? duration); reflexivity. Qed.

(** What [ReadValues] returns from a bucket of keys written under the
    offset: the decodings of the entries from the start key on whose
    instant is not after the end of the window. *)
Lemma ReadValues_canonical s clock (d : DB) sensorID duration b :
  sensor_bucket s d sensorID = Some b ->
  canonical_bucket off b ->
  ReadValues s clock d sensorID duration
  = Returns (decodeAll
      (List.filter (not_after (abs (bucketStart s clock)))
         (List.filter (fun e => negb (String.ltb (fst e)
                          (Format (windowStart s clock duration)))) b)) []).
Proof.
  intros Hb Hc. apply sensor_bucket_Some in Hb as (root & Hr & Hs).
  unfold sensorstore.ReadValues, View. rewrite Hr, Hs, Format_window. f_equal.
  rewrite Seek_filter by apply Hc.
  apply (readLoop_decodes off off_ok json_Unmarshal).
  now apply canonical_bucket_filter.
Qed.

Lemma sec_bucketStart s clock :
  (localSeconds (bucketStart s clock) - off) * Second
  = sec (bucketStart s clock) * Second.
Proof. unfold localSeconds. rewrite offset_bucketStart. f_equal. lia. Qed.

Lemma convertToValues_parsed k v t tv :
  sensorstore.time_Parse Local k = Some t ->
  convertToValues k v = inl tv ->
  exists x, json_Unmarshal v = Some x /\ tv = mkTimedSensorValues t x.
Proof.
  intros HP HC. unfold sensorstore.convertToValues in HC. rewrite HP in HC.
  destruct (json_Unmarshal v) as [x|]; [|discriminate].
  injection HC as <-. eauto.
Qed.

Lemma In_filters to start (b : Bucket) k v :
  In (k, v) b -> String.ltb k start = false -> not_after to (k, v) = true ->
  In (k, v)
    (List.filter (not_after to)
       (List.filter (fun e => negb (String.ltb (fst e) start)) b)).
Proof.
  intros Hin Hge Hna. apply filter_In. split; [|exact Hna].
  apply filter_In. split; [exact Hin|]. cbn [fst]. now rewrite Hge.
Qed.

(** The key of a write at [clock] is within the window of a read at
    [clock'] that reaches back to it. *)
Lemma written_key_in_window s clock clock' duration v :
  in_years (localSeconds (bucketStart s clock)) ->
  in_years (localSeconds (windowStart s clock' duration)) ->
  clock' - Z.abs duration <= clock <= clock' ->
  String.ltb (Format (bucketStart s clock))
    (Format (windowStart s clock' duration)) = false
  /\ not_after (abs (bucketStart s clock'))
       (Format (bucketStart s clock), v) = true.
Proof.
  intros Hy Hw [Hlo Hhi].
  pose proof (windowStart_le s clock clock' duration Hlo) as Hle.
  split.
  - rewrite Format_bucketStart, Format_windowStart. unfold String.ltb.
    rewrite formatLocal_compare by assumption.
    unfold localSeconds. rewrite offset_bucketStart, offset_windowStart.
    assert (sec (windowStart s clock' duration) <= sec (bucketStart s clock))
      by (unfold sec; apply Z.div_le_mono; [reflexivity|exact Hle]).
    destruct (Z.compare_spec (sec (bucketStart s clock) + off)
                (sec (windowStart s clock' duration) + off));
      try reflexivity; lia.
  - destruct (canonical_Parse off off_ok _ _ Hy (Format_bucketStart off s clock))
      as [l HP].
    unfold sensorstore.not_after. cbn [fst]. rewrite HP. cbn [abs].
    rewrite sec_bucketStart. apply Z.leb_le.
    assert (abs (bucketStart s clock) <= abs (bucketStart s clock'))
      by (apply Truncate_mono; unfold sensorstore.Now; cbn [abs]; lia).
    unfold sec, Second.
    pose proof (Z.mul_div_le (abs (bucketStart s clock)) 1000000000 ltac:(lia)).
    lia.
Qed.

(** X16: under a local zone of one offset of whole minutes, a value that
    [StoreValues] has stored at clock reading [clock] is returned by a
    [ReadValues] at a later reading [clock'] whose window reaches back to
    it ([clock' - |duration| <= clock <= clock']) and that returns no
    error: the result holds an entry whose timestamp is the bucket start of
    the write, to the second, and whose values are the decoding of what was
    encoded. The bucket holds keys written under that offset, and the two
    starts lie in the years 1 to 9999. *)
Theorem stored_value_is_read_back s clock clock' commit_ok (d d' : DB)
    sensorID values duration b vals :
  sensor_bucket s d sensorID = Some b ->
  canonical_bucket off b ->
  in_years (localSeconds (bucketStart s clock)) ->
  in_years (localSeconds (windowStart s clock' duration)) ->
  clock' - Z.abs duration <= clock <= clock' ->
  StoreValues s clock commit_ok d sensorID values = Returns (d', None) ->
  ReadValues s clock' d' sensorID duration = Returns (vals, None) ->
  exists text x,
    json_Marshal values = Some text
    /\ json_Unmarshal text = Some x
    /\ exists tv, In tv vals
         /\ Values tv = x
         /\ abs (Timestamp tv) = sec (bucketStart s clock) * Second.
Proof.
  intros Hb Hc Hy Hw Hclock HS HR.
  destruct (StoreValues_canonical off json_Marshal s clock commit_ok d sensorID
              values b d' None Hb Hc Hy HS) as (b' & Hb' & Hc').
  destruct (StoreValues_ok Local json_Marshal s clock commit_ok d sensorID
              values d' HS) as (b0 & text & Hb0 & HM & _ & _ & Hb'').
  rewrite (ReadValues_canonical s clock' d' sensorID duration b' Hb' Hc') in HR.
  injection HR as HR.
  rewrite Hb' in Hb''. injection Hb'' as ->.
  destruct (written_key_in_window s clock clock' duration text Hy Hw Hclock)
    as [Hge Hna].
  destruct (decodeAll_complete _ _ _ HR) as [_ Hall].
  destruct (Hall (Format (bucketStart s clock)) text) as (tv & HC & Htv).
  { apply In_filters; [apply In_insert|exact Hge|exact Hna]. }
  destruct (canonical_Parse off off_ok _ _ Hy (Format_bucketStart off s clock))
    as [l HP].
  destruct (convertToValues_parsed _ _ _ _ HP HC) as (x & U & ->).
  exists text, x. split; [exact HM|]. split; [exact U|].
  eexists. split; [exact Htv|]. split; [reflexivity|].
  apply sec_bucketStart.
Qed.

End FixedOffset.
End query_facts.

(** * The sampling loop of the program *)

Module main_facts.
Import sensorstore.

(** X17: the sampling loop sends the readings of the ticks, each
    temperature and humidity unchanged and in order, up to the first
    signal or failed read and nothing after it: it returns on the signal,
    exits on the failed read, and otherwise waits for the next event. *)
Theorem readSensorValues_sends_until_stop rs tail :
  let events := map (fun r => main.Tick (Some r)) rs in
  let sent := map (fun r => mkSensorValues (main.reading_Temperature r)
                              (main.reading_Humidity r)) rs in
  main.readSensorValues (events ++ main.Signal :: tail) = (sent, main.Returned)
  /\ main.readSensorValues (events ++ main.Tick None :: tail) = (sent, main.Fatal)
  /\ main.readSensorValues events = (sent, main.Waits).
Proof.
  induction rs as [|r rs (IH1 & IH2 & IH3)]; [repeat split|].
  cbn [map app main.readSensorValues]. cbn zeta in IH1, IH2, IH3.
  rewrite IH1, IH2, IH3. repeat split.
Qed.

End main_facts.

(** * The further properties on concrete runs *)

Module more_runs.
Import time bolt sensorstore scenario time_facts bolt_facts sensorstore_facts.
Import runs provisioning_facts store_facts query_facts.

(** A second sensor, which the runs below never write. *)
Lemma other_sensor : "cellar"%string <> sensorID.
Proof. discriminate. Qed.

(** X2, on the database that [New] leaves: the sensor gets an empty
    bucket. *)
Lemma StoreValuesChannel_provisions_witness :
  unprovisioned !! rootBucket store = Some no_sensor
  /\ exists d',
       StoreValuesChannel store true unprovisioned sensorID = Returns (d', None)
       /\ sensor_bucket store d' sensorID = Some []
       /\ StoreValuesChannel store true d' sensorID = Returns (d', None).
Proof.
  split; [compute_eq|].
  destruct (proj2 (proj2 (StoreValuesChannel_provisions store true unprovisioned
                            sensorID no_sensor ltac:(compute_eq)))
              ltac:(discriminate) eq_refl)
    as (d' & H1 & H2 & _ & _ & H5).
  exists d'. split; [exact H1|]. split; [|exact H5].
  rewrite H2. compute_eq.
Defined.

(** X4, on the first write of the scenario under UTC. *)
Lemma StoreValues_changes_only_its_bucket_witness :
  StoreValues UTC json.Marshal store (rcv_clock u1) true provisioned sensorID v1
  = Returns (after_u1, None)
  /\ sensor_bucket store after_u1 "cellar"
     = sensor_bucket store provisioned "cellar".
Proof.
  split; [compute_eq|].
  apply (proj1 (proj2 (StoreValues_changes_only_its_bucket UTC json.Marshal
           store (rcv_clock u1) true provisioned sensorID v1 after_u1 None
           ltac:(compute_eq)))).
  exact other_sensor.
Defined.

(** X5, on the writes [u1] and [u3] under UTC. *)
Lemma storeAll_changes_only_its_bucket_witness :
  "cellar"%string <> sensorID
  /\ sensor_bucket store
       (storeAll UTC json.Marshal store sensorID [u1; u3] provisioned) "cellar"
     = sensor_bucket store provisioned "cellar".
Proof.
  split; [exact other_sensor|].
  apply (storeAll_changes_only_its_bucket UTC json.Marshal store sensorID
           [u1; u3] provisioned "cellar" other_sensor).
Defined.

(** X6, on the write [u3] after [u1] under UTC: the bucket gains the entry
    of 10:10:00. *)
Lemma StoreValues_keeps_other_entries_witness :
  StoreValues UTC json.Marshal store (rcv_clock u3) true after_u1 sensorID v1
  = Returns (after_u1_u3, None)
  /\ sensor_bucket store after_u1 sensorID
     = Some [("2024-01-02T10:00:00Z"%string, text1)]
  /\ ordered [("2024-01-02T10:00:00Z"%string, text1)]
  /\ exists b',
       sensor_bucket store after_u1_u3 sensorID = Some b'
       /\ ordered b'
       /\ length b' = 2%nat.
Proof.
  assert (Ho : ordered [("2024-01-02T10:00:00Z"%string, text1)])
    by (repeat constructor).
  split; [compute_eq|]. split; [compute_eq|]. split; [exact Ho|].
  destruct (StoreValues_keeps_other_entries UTC json.Marshal store
              (rcv_clock u3) true after_u1 sensorID v1 after_u1_u3
              [("2024-01-02T10:00:00Z"%string, text1)]
              ltac:(compute_eq) ltac:(compute_eq) Ho)
    as (b' & H1 & H2 & _ & H4).
  exists b'. split; [exact H1|]. split; [exact H2|].
  rewrite H4. compute_eq.
Defined.

(** X7, on the readings 10:03:00 and 10:07:00 under UTC. *)
Lemma same_window_same_key_witness :
  0 < resolution store
  /\ abs (bucketStart UTC store (rcv_clock u1)) <= rcv_clock u2
       < abs (bucketStart UTC store (rcv_clock u1)) + resolution store
  /\ Format (bucketStart UTC store (rcv_clock u2))
     = Format (bucketStart UTC store (rcv_clock u1)).
Proof.
  assert (H1 : 0 < resolution store) by (apply Z.ltb_lt; compute_eq).
  assert (H2 : abs (bucketStart UTC store (rcv_clock u1)) <= rcv_clock u2
               < abs (bucketStart UTC store (rcv_clock u1)) + resolution store)
    by (split; [apply Z.leb_le|apply Z.ltb_lt]; compute_eq).
  split; [exact H1|]. split; [exact H2|].
  apply (proj2 (same_window_same_key UTC store (rcv_clock u1) (rcv_clock u2)
                  H1 H2)).
Defined.

(** X8, on the key of the first write under UTC and the encoding of
    [v1]. *)
Lemma key_round_trip_witness :
  presentable (bucketStart UTC store (rcv_clock u1))
  /\ exists t',
       abs t' = clock 2024 1 2 10 0 0
       /\ convertToValues UTC json.Unmarshal
            (Format (bucketStart UTC store (rcv_clock u1))) text1
          = inl (mkTimedSensorValues t' v1).
Proof.
  assert (Hp : presentable (bucketStart UTC store (rcv_clock u1)))
    by (split; [in_years_now | exact zone_ok_0]).
  assert (U : json.Unmarshal text1 = Some v1) by compute_eq.
  assert (A : sec (bucketStart UTC store (rcv_clock u1)) * Second
              = clock 2024 1 2 10 0 0) by compute_eq.
  split; [exact Hp|].
  destruct (key_round_trip UTC json.Unmarshal
              (bucketStart UTC store (rcv_clock u1)) text1 Hp)
    as (t' & H1 & _ & _ & H4).
  exists t'. split; [now rewrite H1|]. rewrite H4, U. reflexivity.
Defined.

(** X9, on the readings 10:03:00 and 10:07:00 under UTC. *)
Lemma different_windows_different_keys_witness :
  0 < resolution store
  /\ resolution store mod Second = 0
  /\ Format (bucketStart UTC store (rcv_clock u1))
     = Format (bucketStart UTC store (rcv_clock u2))
  /\ bucketStart UTC store (rcv_clock u1) = bucketStart UTC store (rcv_clock u2).
Proof.
  assert (H1 : 0 < resolution store) by (apply Z.ltb_lt; compute_eq).
  assert (H2 : resolution store mod Second = 0) by compute_eq.
  assert (H3 : Format (bucketStart UTC store (rcv_clock u1))
               = Format (bucketStart UTC store (rcv_clock u2))) by compute_eq.
  split; [exact H1|]. split; [exact H2|]. split; [exact H3|].
  apply (different_windows_different_keys UTC store (rcv_clock u1)
           (rcv_clock u2) H1 H2); [| |exact H3];
    (split; [in_years_now | exact zone_ok_0]).
Defined.

(** X15, on the writes [u1] and [u3] under UTC. *)
Lemma later_write_greater_key_witness :
  in_years (localSeconds (bucketStart (FixedZone 0) store (rcv_clock u1)))
  /\ in_years (localSeconds (bucketStart (FixedZone 0) store (rcv_clock u3)))
  /\ rcv_clock u1 <= rcv_clock u3
  /\ String.ltb (Format (bucketStart (FixedZone 0) store (rcv_clock u3)))
       (Format (bucketStart (FixedZone 0) store (rcv_clock u1))) = false.
Proof.
  assert (H1 : in_years (localSeconds
                           (bucketStart (FixedZone 0) store (rcv_clock u1))))
    by in_years_now.
  assert (H2 : in_years (localSeconds
                           (bucketStart (FixedZone 0) store (rcv_clock u3))))
    by in_years_now.
  assert (H3 : rcv_clock u1 <= rcv_clock u3) by (apply Z.leb_le; compute_eq).
  split; [exact H1|]. split; [exact H2|]. split; [exact H3|].
  apply (proj2 (later_write_greater_key 0 store (rcv_clock u1) (rcv_clock u3)
                  H1 H2) H3).
Defined.

(** X11, on the entry that [u1] leaves, read a day later for ten
    minutes. *)
Lemma ReadValues_nothing_in_range_witness :
  sensor_bucket store after_u1 sensorID
  = Some [("2024-01-02T10:00:00Z"%string, text1)]
  /\ ReadValues UTC json.Unmarshal store (clock 2024 1 3 10 15 0) after_u1
       sensorID (10 * Minute) = Returns ([], None).
Proof.
  split; [compute_eq|].
  apply (ReadValues_nothing_in_range UTC json.Unmarshal store
           (clock 2024 1 3 10 15 0) after_u1 sensorID (10 * Minute)
           [("2024-01-02T10:00:00Z"%string, text1)] ltac:(compute_eq)).
  constructor; [compute_eq|constructor].
Defined.

(** X12, on the two entries that [u1] and [u3] leave under UTC. *)
Lemma ReadLastValue_greatest_key_witness :
  sensor_bucket store after_u1_u3 sensorID
  = Some [("2024-01-02T10:00:00Z"%string, text1);
          ("2024-01-02T10:10:00Z"%string, text1)]
  /\ ordered [("2024-01-02T10:00:00Z"%string, text1);
              ("2024-01-02T10:10:00Z"%string, text1)]
  /\ exists k v,
       In (k, v) [("2024-01-02T10:00:00Z"%string, text1);
                  ("2024-01-02T10:10:00Z"%string, text1)]
       /\ ReadLastValue UTC json.Unmarshal store after_u1_u3 sensorID
          = Returns (pair_of (convertToValues UTC json.Unmarshal k v)).
Proof.
  assert (Ho : ordered [("2024-01-02T10:00:00Z"%string, text1);
                        ("2024-01-02T10:10:00Z"%string, text1)])
    by (repeat constructor).
  split; [compute_eq|]. split; [exact Ho|].
  destruct (ReadLastValue_greatest_key UTC json.Unmarshal store after_u1_u3
              sensorID _ ltac:(compute_eq) Ho ltac:(discriminate))
    as (k & v & H1 & _ & H3).
  exists k, v. split; [exact H1|exact H3].
Defined.

(** X13, on the two entries that [u1] and [u3] leave under UTC, read at
    10:15:00 for ten minutes. *)
Lemma ReadValues_returns_a_run_witness :
  sensor_bucket store after_u1_u3 sensorID
  = Some [("2024-01-02T10:00:00Z"%string, text1);
          ("2024-01-02T10:10:00Z"%string, text1)]
  /\ exists vals err,
       ReadValues UTC json.Unmarshal store (clock 2024 1 2 10 15 0) after_u1_u3
         sensorID (10 * Minute) = Returns (vals, err)
       /\ Forall (fun x => abs (Timestamp x)
                           <= abs (bucketStart UTC store (clock 2024 1 2 10 15 0)))
            vals.
Proof.
  split; [compute_eq|].
  destruct (ReadValues_returns_a_run UTC json.Unmarshal store
              (clock 2024 1 2 10 15 0) after_u1_u3 sensorID (10 * Minute) _
              ltac:(compute_eq))
    as (es & rest & vals & err & H1 & _ & _ & H4 & _).
  exists vals, err. split; [exact H1|exact H4].
Defined.

(** X14, on the routine that [StoreValuesChannel] starts on the database
    that [New] leaves, with [u1] and [u3] sent. *)
Lemma started_writer_never_crashes_witness :
  StoreValuesChannel store true unprovisioned sensorID
  = Returns (provisioned, None)
  /\ status (run UTC json.Marshal store sensorID 2
               (mkRoutine Running (mkChan [u1; u3] false) provisioned))
     <> Crashed
  /\ db (run UTC json.Marshal store sensorID 2
           (mkRoutine Running (mkChan [u1; u3] false) provisioned))
     = storeAll UTC json.Marshal store sensorID [u1; u3] provisioned.
Proof.
  split; [compute_eq|].
  destruct (started_writer_never_crashes UTC json.Marshal store true
              unprovisioned provisioned sensorID [u1; u3] false 2
              ltac:(compute_eq))
    as (H1 & H2 & _).
  split; [exact H1|exact H2].
Defined.

(** X16, on the write [u1] under UTC, read at 10:15:00 for twenty
    minutes. *)
Lemma stored_value_is_read_back_witness :
  zone_ok 0
  /\ StoreValues (FixedZone 0) json.Marshal store (rcv_clock u1) true
       provisioned sensorID v1 = Returns (after_u1, None)
  /\ ReadValues (FixedZone 0) json.Unmarshal store (clock 2024 1 2 10 15 0)
       after_u1 sensorID (20 * Minute)
     = Returns ([mkTimedSensorValues (Date 2024 1 2 10 0 0 0 UTC) v1], None)
  /\ exists text x,
       json.Marshal v1 = Some text
       /\ json.Unmarshal text = Some x
       /\ exists tv,
            In tv [mkTimedSensorValues (Date 2024 1 2 10 0 0 0 UTC) v1]
            /\ Values tv = x
            /\ abs (Timestamp tv)
               = sec (bucketStart (FixedZone 0) store (rcv_clock u1)) * Second.
Proof.
  assert (HS : StoreValues (FixedZone 0) json.Marshal store (rcv_clock u1) true
                 provisioned sensorID v1 = Returns (after_u1, None))
    by compute_eq.
  assert (HR : ReadValues (FixedZone 0) json.Unmarshal store
                 (clock 2024 1 2 10 15 0) after_u1 sensorID (20 * Minute)
               = Returns ([mkTimedSensorValues (Date 2024 1 2 10 0 0 0 UTC) v1],
                          None))
    by compute_eq.
  split; [exact zone_ok_0|]. split; [exact HS|]. split; [exact HR|].
  apply (stored_value_is_read_back 0 zone_ok_0 json.Marshal json.Unmarshal
           store (rcv_clock u1) (clock 2024 1 2 10 15 0) true provisioned
           after_u1 sensorID v1 (20 * Minute) []
           [mkTimedSensorValues (Date 2024 1 2 10 0 0 0 UTC) v1]).
  - compute_eq.
  - split; constructor.
  - in_years_now.
  - in_years_now.
  - split; apply Z.leb_le; compute_eq.
  - exact HS.
  - exact HR.
Defined.

End more_runs.
